(** * Shallow embedding of [bmlite.SPM.dae]: [residuals] and [bandwidth].

    Floating-point numbers are modelled by the real numbers of the Standard
    Library; numpy 1-D arrays by [list R]; numpy indexing, fancy indexing,
    slicing, broadcasting and index assignment by the functions of the
    section [Numpy] below, which fail ([None]) where numpy raises
    ([IndexError], [ValueError]).  The material functions of the electrodes
    ([get_Eeq], [get_i0], [get_Ds]), the physical constants and the finite
    volume operators [grad_r] / [div_r] of [bmlite.math] are inputs of the
    model: every result below holds for all of them. *)

From Stdlib Require Import Reals Lra List String Bool Arith Lia.
Import ListNotations.
Open Scope R_scope.

(** ** A small exception monad: [None] is a raised Python exception. *)

Definition bind {A B} (m : option A) (k : A -> option B) : option B :=
  match m with Some a => k a | None => None end.

Notation "'let*' x ':=' m 'in' k" := (bind m (fun x => k))
  (at level 200, x name, m at level 100, right associativity).

(** ** numpy on 1-D arrays *)

Section Numpy.

(** [a[i]] for a non-negative index. *)
Definition at_ (a : list R) (i : nat) : option R := nth_error a i.

(** [a[idx]] with an integer index array (fancy indexing). *)
Fixpoint take_idx (a : list R) (idx : list nat) : option (list R) :=
  match idx with
  | [] => Some []
  | i :: idx' => let* x := at_ a i in let* xs := take_idx a idx' in Some (x :: xs)
  end.

(** [a[-1]] *)
Definition last_ (a : list R) : option R :=
  match rev a with [] => None | x :: _ => Some x end.

(** [a[:-1]] and [a[1:]] *)
Definition drop_last (a : list R) : list R := removelast a.
Definition drop_first (a : list R) : list R := tl a.

(** Elementwise binary operation with 1-D broadcasting. *)
Fixpoint zip_with (f : R -> R -> R) (a b : list R) : list R :=
  match a, b with
  | x :: a', y :: b' => f x y :: zip_with f a' b'
  | _, _ => []
  end.

Definition bcast (f : R -> R -> R) (a b : list R) : option (list R) :=
  if Nat.eqb (List.length a) (List.length b) then Some (zip_with f a b)
  else if Nat.eqb (List.length a) 1 then Some (map (f (hd 0 a)) b)
  else if Nat.eqb (List.length b) 1 then Some (map (fun x => f x (hd 0 b)) a)
  else None.

(** scalar * array and array * scalar *)
Definition smul (k : R) (a : list R) : list R := map (Rmult k) a.
Definition muls (a : list R) (k : R) : list R := map (fun x => x * k) a.

(** [res[i] = v] *)
Fixpoint replace_nth (a : list R) (i : nat) (v : R) : list R :=
  match a, i with
  | [], _ => []
  | _ :: a', O => v :: a'
  | x :: a', S i' => x :: replace_nth a' i' v
  end.

Definition assign_at (a : list R) (i : nat) (v : R) : option (list R) :=
  if Nat.ltb i (List.length a) then Some (replace_nth a i v) else None.

(** A sequence of single-element assignments, performed in order. *)
Fixpoint apply_writes (w : list (nat * R)) (a : list R) : option (list R) :=
  match w with
  | [] => Some a
  | (i, v) :: w' => let* a' := assign_at a i v in apply_writes w' a'
  end.

(** [res[idx] = vals]: the values broadcast to the shape of the index array. *)
Definition assign_idx (a : list R) (idx : list nat) (vals : list R) : option (list R) :=
  if Nat.eqb (List.length vals) (List.length idx) then apply_writes (combine idx vals) a
  else if Nat.eqb (List.length vals) 1 then apply_writes (map (fun i => (i, hd 0 vals)) idx) a
  else None.

End Numpy.

(** ** The data model *)

(** [bmlite.Constants]: Faraday's constant and the gas constant ([c.R]). *)
Record Constants := mkConstants { F : R; R_gas : R }.

(** [bmlite.math.grad_r] and [bmlite.math.div_r]. *)
Record MathOps := mkMathOps {
  grad_r : list R -> list R -> list R;
  div_r : list R -> list R -> list R -> list R }.

(** An electrode domain ([sim.an], [sim.ca]): its pointers into the state
    vector, particle mesh, parameters and material functions. *)
Record Electrode := mkElectrode {
  ptr_phi_ed : nat;            (* ptr['phi_ed'] *)
  r_ptr_Li_ed : list nat;      (* r_ptr['Li_ed'] *)
  Li_max : R;
  alpha_a : R;
  alpha_c : R;
  A_s : R;
  thick : R;
  r : list R;
  rm : list R;
  rp : list R;
  get_Eeq : R -> R -> R;
  get_i0 : R -> R -> R -> R;
  get_Ds : list R -> R -> list R }.

Record Electrolyte := mkElectrolyte {
  ptr_phi_el : nat;            (* ptr['phi_el'] *)
  Li_0 : R }.

Record Battery := mkBattery { temp : R; cap : R; area : R }.

(** The simulation object; [flag_post] is [sim._flags['post']]. *)
Record Simulation := mkSimulation {
  bat : Battery;
  el : Electrolyte;
  an : Electrode;
  ca : Electrode;
  t0 : R;
  flag_post : bool;
  sv0 : list R;
  svdot0 : list R }.

(** The [exp['events']] snapshot, with exactly its seven keys. *)
Record Events := mkEvents {
  time_s : R; time_min : R; time_h : R;
  current_A : R; current_C : R; voltage_V : R; power_W : R }.

(** The experiment dict: ['mode'], ['units'], ['value'] and, once a
    residual call has run, ['events']. *)
Record Experiment := mkExperiment {
  mode : string;
  units : string;
  value : R -> R;
  events : option Events }.

Definition set_events (ex : Experiment) (ev : Events) : Experiment :=
  mkExperiment (mode ex) (units ex) (value ex) (Some ev).

(** What a call to [residuals] can read or write: the simulation, the
    solver's buffers [sv], [svdot], [res], and the experiment dict. *)
Record Store := mkStore {
  st_sim : Simulation;
  st_sv : list R;
  st_svdot : list R;
  st_res : list R;
  st_exp : Experiment }.

(** ** [residuals] *)

Section Residuals.

Variable c : Constants.
Variable m : MathOps.

(** Reaction current of an electrode (the "Reaction current" block):
    overpotential, exchange current density and Butler-Volmer rate. *)
Definition reaction_rate (ed : Electrode) (phi_ed phi_el xs_surf Li_0 T : R) : R :=
  let eta := phi_ed - phi_el - get_Eeq ed xs_surf T in
  let i0 := get_i0 ed xs_surf Li_0 T in
  i0 / F c * (  exp ( alpha_a ed * F c * eta / R_gas c / T)
              - exp (- alpha_c ed * F c * eta / R_gas c / T)  ).

(** "Weighted solid particle properties" and the flux vector [Js] of the
    solid-phase COM: [np.concat([[0.], Ds*grad_r(r, Li), [-sdot]])]. *)
Definition solid_flux (ed : Electrode) (xs : list R) (T sdot : R) : option (list R) :=
  let Li := muls xs (Li_max ed) in
  let* dr := bcast Rminus (drop_first (r ed)) (drop_last (r ed)) in
  let* hm := bcast Rminus (drop_last (rp ed)) (drop_last (rm ed)) in
  let* wt_m := bcast Rdiv (smul (1/2) hm) dr in
  let* hp := bcast Rminus (drop_first (rp ed)) (drop_first (rm ed)) in
  let* wt_p := bcast Rdiv (smul (1/2) hp) dr in
  let* dm := bcast Rmult wt_m (get_Ds ed (drop_last xs) T) in
  let* dp := bcast Rmult wt_p (get_Ds ed (drop_first xs) T) in
  let* Ds := bcast Rplus dm dp in
  let* inner := bcast Rmult Ds (grad_r m (r ed) Li) in
  Some ([0] ++ inner ++ [- sdot]).

(** [res[r_ptr['Li_ed']] = Li_max*svdot[r_ptr['Li_ed']] - div_r(rm, rp, Js)] *)
Definition solid_com (ed : Electrode) (svdot res : list R) (Js : list R) : option (list R) :=
  let* xdot := take_idx svdot (r_ptr_Li_ed ed) in
  let* rows := bcast Rminus (smul (Li_max ed) xdot) (div_r m (rm ed) (rp ed) Js) in
  assign_idx res (r_ptr_Li_ed ed) rows.

(** The four-branch "Boundary conditions" block, writing the cathode
    solid-phase COC row and the electrolyte potential row. *)
Definition boundary_conditions (sim : Simulation) (ex : Experiment) (t : R)
    (sdot_an sdot_ca voltage_V power_W : R) (res : list R) : option (list R) :=
  let an := an sim in let ca := ca sim in let bat := bat sim in
  let pca := ptr_phi_ed ca in let pel := ptr_phi_el (el sim) in
  let value := value ex in
  if String.eqb (mode ex) "current" && String.eqb (units ex) "A" then
    let* res := assign_at res pca (sdot_ca * A_s ca * thick ca * F c - value t / area bat) in
    assign_at res pel (sdot_an * A_s an * thick an * F c + value t / area bat)
  else if String.eqb (mode ex) "current" && String.eqb (units ex) "C" then
    let* res := assign_at res pca (sdot_ca * A_s ca * thick ca * F c - value t * cap bat / area bat) in
    assign_at res pel (sdot_an * A_s an * thick an * F c + value t * cap bat / area bat)
  else if String.eqb (mode ex) "voltage" then
    let* res := assign_at res pca (voltage_V - value t) in
    assign_at res pel (sdot_an * A_s an * thick an + sdot_ca * A_s ca * thick ca)
  else if String.eqb (mode ex) "power" then
    let* res := assign_at res pca (power_W - value t) in
    assign_at res pel (sdot_an * A_s an * thick an + sdot_ca * A_s ca * thick ca)
  else Some res.

(** [residuals(t, sv, svdot, res, (sim, exp))]: the new store (with [res]
    written and [exp['events']] set) and the return value, [None] or
    [(sdot_an, sdot_ca)] when [sim._flags['post']] is set. *)
Definition residuals (t : R) (s : Store) : option (Store * option (R * R)) :=
  let sim := st_sim s in let ex := st_exp s in
  let sv := st_sv s in let svdot := st_svdot s in
  let bat := bat sim in let el := el sim in let an := an sim in let ca := ca sim in
  let T := temp bat in
  let* phi_an := at_ sv (ptr_phi_ed an) in
  let* phi_el := at_ sv (ptr_phi_el el) in
  let* phi_ca := at_ sv (ptr_phi_ed ca) in
  let* xs_an := take_idx sv (r_ptr_Li_ed an) in
  let* xs_ca := take_idx sv (r_ptr_Li_ed ca) in
  (* Anode *)
  let* xs_an_surf := last_ xs_an in
  let sdot_an := reaction_rate an phi_an phi_el xs_an_surf (Li_0 el) T in
  let* Js_an := solid_flux an xs_an T sdot_an in
  let* res := solid_com an svdot (st_res s) Js_an in
  let* res := assign_at res (ptr_phi_ed an) (phi_an - 0) in
  (* Cathode *)
  let* xs_ca_surf := last_ xs_ca in
  let sdot_ca := reaction_rate ca phi_ca phi_el xs_ca_surf (Li_0 el) T in
  let* Js_ca := solid_flux ca xs_ca T sdot_ca in
  let* res := solid_com ca svdot res Js_ca in
  (* External current *)
  let i_ext := - sdot_an * A_s an * thick an * F c in
  let voltage_V := phi_ca in
  let current_A := i_ext * area bat in
  let power_W := current_A * voltage_V in
  let* res := boundary_conditions sim ex t sdot_an sdot_ca voltage_V power_W res in
  (* Events tracking *)
  let total_time := t0 sim + t in
  let ev := mkEvents total_time (total_time / 60) (total_time / 3600)
              current_A (current_A / cap bat) voltage_V power_W in
  Some (mkStore sim sv svdot res (set_events ex ev),
        if flag_post sim then Some (sdot_an, sdot_ca) else None).

End Residuals.

(** ** [bandwidth] *)

Section Bandwidth.

Variable c : Constants.
Variable m : MathOps.

(** The fake OCV experiment [{'mode': 'current', 'units': 'C',
    'value': lambda t: 0.}] (no ['events'] key yet). *)
Definition ocv_exp : Experiment := mkExperiment "current" "C" (fun _ => 0) None.

(** Python's [max(1e-6, 1e-6*y)]: the first argument unless the second is
    greater. *)
Definition step (y : R) : R :=
  if Rlt_dec (1e-6) (1e-6 * y) then 1e-6 * y else 1e-6.

Fixpoint zip_rows (f : list R -> R -> list R) (rows : list (list R)) (col : list R)
    : list (list R) :=
  match rows, col with
  | row :: rows', v :: col' => f row v :: zip_rows f rows' col'
  | _, _ => []
  end.

(** [jac[:, j] = col] and [jac[:, j] += col] *)
Definition set_col (jac : list (list R)) (j : nat) (col : list R) : option (list (list R)) :=
  if Nat.eqb (List.length col) (List.length jac)
  then Some (zip_rows (fun row v => replace_nth row j v) jac col) else None.

Definition add_col (jac : list (list R)) (j : nat) (col : list R) : option (list (list R)) :=
  if Nat.eqb (List.length col) (List.length jac)
  then Some (zip_rows (fun row v => replace_nth row j (nth j row 0 + v)) jac col) else None.

(** The first loop: perturb [sv[j]], re-evaluate, [jac[:, j] = res_0 - res].
    The buffer [res] and the dict [expr] are threaded from one call to the
    next, as in the source. *)
Fixpoint probe_sv (sim : Simulation) (sv svdot res_0 : list R) (js : list nat)
    (res : list R) (expr : Experiment) (jac : list (list R))
    : option (list (list R) * list R * Experiment) :=
  match js with
  | [] => Some (jac, res, expr)
  | j :: js' =>
      let* y := at_ sv j in
      let* dsv := assign_at sv j (y + step y) in
      let* o := residuals c m 0 (mkStore sim dsv svdot res expr) in
      let res := st_res (fst o) in
      let* dres := bcast Rminus res_0 res in
      let* jac := set_col jac j dres in
      probe_sv sim sv svdot res_0 js' res (st_exp (fst o)) jac
  end.

(** The second loop: perturb [svdot[j]], [jac[:, j] += res_0 - res]. *)
Fixpoint probe_svdot (sim : Simulation) (sv svdot res_0 : list R) (js : list nat)
    (res : list R) (expr : Experiment) (jac : list (list R))
    : option (list (list R) * list R * Experiment) :=
  match js with
  | [] => Some (jac, res, expr)
  | j :: js' =>
      let* y := at_ svdot j in
      let* dsvdot := assign_at svdot j (y + step y) in
      let* o := residuals c m 0 (mkStore sim sv dsvdot res expr) in
      let res := st_res (fst o) in
      let* dres := bcast Rminus res_0 res in
      let* jac := add_col jac j dres in
      probe_svdot sim sv svdot res_0 js' res (st_exp (fst o)) jac
  end.

(** [abs(x) > 0] and [np.where(abs(a) > 0)[0] + k] *)
Definition nz (x : R) : bool := if Rlt_dec 0 (Rabs x) then true else false.

Fixpoint where_nz (k : nat) (a : list R) : list nat :=
  match a with
  | [] => []
  | x :: a' => if nz x then k :: where_nz (S k) a' else where_nz (S k) a'
  end.

Fixpoint last_nat (l : list nat) : option nat :=
  match l with [] => None | [x] => Some x | _ :: l' => last_nat l' end.

(** [l_inds = np.where(abs(jac[i, :i]) > 0)[0]] and the [lband] update. *)
Definition lower_update (i : nat) (row : list R) (lband : nat) : nat :=
  let l_inds := where_nz 0 (firstn i row) in
  match l_inds with
  | j :: _ => if Nat.ltb lband (i - j)%nat then (i - j)%nat else lband
  | [] => lband
  end.

(** [u_inds = i + np.where(abs(jac[i, i:]) > 0)[0]] and the [uband] update. *)
Definition upper_update (i : nat) (row : list R) (uband : nat) : nat :=
  let u_inds := where_nz i (skipn i row) in
  match last_nat u_inds with
  | Some k => if Nat.ltb uband (k - i)%nat then (k - i)%nat else uband
  | None => uband
  end.

(** The loop [for i in range(jac.shape[0])] over the rows of [jac]. *)
Fixpoint band_rows (rows : list (list R)) (i lband uband : nat) : nat * nat :=
  match rows with
  | [] => (lband, uband)
  | row :: rows' =>
      band_rows rows' (S i) (lower_update i row lband) (upper_update i row uband)
  end.

(** [j_pat = np.zeros_like(jac); j_pat[jac != 0] = 1] *)
Definition pattern (jac : list (list R)) : list (list R) :=
  map (map (fun x => if Req_EM_T x 0 then 0 else 1)) jac.

(** The probing part of [bandwidth]: baseline residual, then the two
    perturbation loops, giving the finite-difference matrix [jac]. *)
Definition jacobian (sim : Simulation) : option (list (list R)) :=
  let N := List.length (sv0 sim) in
  let expr := ocv_exp in
  let jac := repeat (repeat 0 N) N in
  let sv := sv0 sim in
  let svdot := svdot0 sim in
  let res := repeat 0 (List.length sv) in
  let* o := residuals c m 0 (mkStore sim sv svdot res expr) in
  let res_0 := st_res (fst o) in
  let* p1 := probe_sv sim sv svdot res_0 (seq 0 N) res_0 (st_exp (fst o)) jac in
  let '(jac, res, expr) := p1 in
  let* p2 := probe_svdot sim sv svdot res_0 (seq 0 N) res expr jac in
  let '(jac, _, _) := p2 in
  Some jac.

Definition bandwidth (sim : Simulation) : option (nat * nat * list (list R)) :=
  let* jac := jacobian sim in
  let '(lband, uband) := band_rows jac 0 0 0 in
  Some (lband, uband, pattern jac).

End Bandwidth.

(** ** Specification-side formulas (from the spec's words) *)

(** The intercalation fraction at the electrode's last radial node. *)
Definition surface_fraction (sv : list R) (ed : Electrode) : option R :=
  let* xs := take_idx sv (r_ptr_Li_ed ed) in last_ xs.

(** Butler-Volmer, [i0/F * (exp(aa F eta/(R T)) - exp(-ac F eta/(R T)))]. *)
Definition bv_spec (c : Constants) (ed : Electrode) (phi_ed phi_el x Li0 T : R) : R :=
  let eta := phi_ed - phi_el - get_Eeq ed x T in
  let i0 := get_i0 ed x Li0 T in
  i0 / F c * (exp (alpha_a ed * F c * eta / (R_gas c * T))
              - exp (- alpha_c ed * F c * eta / (R_gas c * T))).

(** The four [(mode, units)] pairs the boundary-condition block handles. *)
Definition supported (md un : string) : bool :=
  (String.eqb md "current" && String.eqb un "A")
  || (String.eqb md "current" && String.eqb un "C")
  || String.eqb md "voltage" || String.eqb md "power".

(** The anode and cathode Butler-Volmer rates at a state vector. *)
Definition rates_spec (c : Constants) (sv : list R) (sim : Simulation) : option (R * R) :=
  let T := temp (bat sim) in
  let* phi_an := at_ sv (ptr_phi_ed (an sim)) in
  let* phi_el := at_ sv (ptr_phi_el (el sim)) in
  let* phi_ca := at_ sv (ptr_phi_ed (ca sim)) in
  let* x_an := surface_fraction sv (an sim) in
  let* x_ca := surface_fraction sv (ca sim) in
  Some (bv_spec c (an sim) phi_an phi_el x_an (Li_0 (el sim)) T,
        bv_spec c (ca sim) phi_ca phi_el x_ca (Li_0 (el sim)) T).

(** The same store with [sim._flags['post']] set to [b]. *)
Definition with_post (s : Store) (b : bool) : Store :=
  let sim := st_sim s in
  mkStore (mkSimulation (bat sim) (el sim) (an sim) (ca sim) (t0 sim) b (sv0 sim) (svdot0 sim))
    (st_sv s) (st_svdot s) (st_res s) (st_exp s).

(** Entry [(i, j)] of a matrix stored as a list of rows; [0] outside. *)
Definition entry (a : list (list R)) (i j : nat) : R := nth j (nth i a []) 0.

(** [dsv[j] = sv[j] + max(1e-6, 1e-6*sv[j])] on a copy of [sv]. *)
Definition bump (a : list R) (j : nat) : list R :=
  replace_nth a j (nth j a 0 + step (nth j a 0)).

(** One probe as the specification describes it: a call of [residuals] at
    [t = 0] on a fresh zero residual buffer, with the fake OCV experiment
    [{mode: 'current', units: 'C', value: t -> 0}]. *)
Definition fresh_res (c : Constants) (m : MathOps) (sim : Simulation) (sv svdot : list R)
    : option (list R) :=
  let* o := residuals c m 0 (mkStore sim sv svdot (repeat 0 (List.length (sv0 sim))) ocv_exp) in
  Some (st_res (fst o)).

(** An [N x N] matrix stored as a list of rows. *)
Definition square (N : nat) (a : list (list R)) : Prop :=
  List.length a = N /\ forall i, (i < N)%nat -> List.length (nth i a []) = N.

(** Two arrays of the same length that agree on the indices [S]. *)
Definition agree (S : nat -> Prop) (a1 a2 : list R) : Prop :=
  List.length a1 = List.length a2 /\ forall k, S k -> nth k a1 0 = nth k a2 0.

(** The rows of [res] a call of [residuals] writes, for an experiment of
    mode [md] and units [un]. *)
Definition written (sim : Simulation) (md un : string) (k : nat) : Prop :=
  In k (r_ptr_Li_ed (an sim)) \/ k = ptr_phi_ed (an sim) \/ In k (r_ptr_Li_ed (ca sim)) \/
  (supported md un = true /\ (k = ptr_phi_ed (ca sim) \/ k = ptr_phi_el (el sim))).

(** The experiment dict threaded through [bandwidth] keeps the fake OCV
    experiment's mode, units and value. *)
Definition ocv_like (ex : Experiment) : Prop :=
  mode ex = mode ocv_exp /\ units ex = units ocv_exp /\ value ex = value ocv_exp.

(** A residual buffer of the right length, zero on the rows the OCV
    experiment's calls do not write. *)
Definition ok_buffer (sim : Simulation) (b : list R) : Prop :=
  List.length b = List.length (sv0 sim) /\
  forall k, ~ written sim (mode ocv_exp) (units ocv_exp) k -> nth k b 0 = 0.

(** The entries of [sv] a call of [residuals] reads: the three potentials
    [sv[an.ptr['phi_ed']]], [sv[el.ptr['phi_el']]], [sv[ca.ptr['phi_ed']]]
    and the radial nodes [sv[an.r_ptr['Li_ed']]], [sv[ca.r_ptr['Li_ed']]]. *)
Definition reads_sv (sim : Simulation) (k : nat) : Prop :=
  k = ptr_phi_ed (an sim) \/ k = ptr_phi_el (el sim) \/ k = ptr_phi_ed (ca sim) \/
  In k (r_ptr_Li_ed (an sim)) \/ In k (r_ptr_Li_ed (ca sim)).

(** The entries of [svdot] a call of [residuals] reads. *)
Definition reads_svdot (sim : Simulation) (k : nat) : Prop :=
  In k (r_ptr_Li_ed (an sim)) \/ In k (r_ptr_Li_ed (ca sim)).

(** What a call of [residuals] hands back to its caller: the residual
    buffer, the experiment dict and the return value. *)
Definition outputs (o : option (Store * option (R * R)))
    : option (list R * Experiment * option (R * R)) :=
  option_map (fun p => (st_res (fst p), st_exp (fst p), snd p)) o.

(** The same, with the events snapshot cut down to its fields other than
    the three time stamps. *)
Definition untimed_outputs (o : option (Store * option (R * R)))
    : option (list R * option (R * R) * option (R * R * R * R)) :=
  option_map (fun p =>
    (st_res (fst p), snd p,
     option_map (fun ev => (current_A ev, current_C ev, voltage_V ev, power_W ev))
       (events (st_exp (fst p))))) o.

(** A small concrete configuration: two radial nodes per particle, state
    vector [anode Li (2); anode phi_ed; phi_el; cathode Li (2); cathode phi_ed]. *)
Module Example.

Definition c0 : Constants := mkConstants 96485 (8314 / 1000).

Definition m0 : MathOps := mkMathOps (fun _ Li => drop_first Li) (fun _ _ Js => drop_first Js).

Definition electrode0 (p : nat) (idx : list nat) : Electrode :=
  mkElectrode p idx 1 (1/2) (1/2) 1 1 [1/4; 3/4] [0; 1/2] [1/2; 1]
    (fun _ _ => 0) (fun _ _ _ => 1) (fun xs _ => xs).

Definition sim0 : Simulation :=
  mkSimulation (mkBattery 300 2 1) (mkElectrolyte 3 1)
    (electrode0 2 (0 :: 1 :: nil)%nat) (electrode0 6 (4 :: 5 :: nil)%nat)
    0 false [1/2; 1/2; 0; 0; 1/2; 1/2; 4] (repeat 0 7).

Definition store0 (ex : Experiment) : Store :=
  mkStore sim0 (sv0 sim0) (svdot0 sim0) (repeat 0 7) ex.

Definition voltage_exp : Experiment := mkExperiment "voltage" "V" (fun _ => 4) None.

Definition current_A_exp : Experiment := mkExperiment "current" "A" (fun _ => 2) None.

Definition power_exp : Experiment := mkExperiment "power" "W" (fun _ => 8) None.

(** The same cell with one more, unused slot at the end of the state
    vector: no equation reads index [7] and none writes row [7]. *)
Definition sim_pad : Simulation :=
  mkSimulation (mkBattery 300 2 1) (mkElectrolyte 3 1)
    (electrode0 2 (0 :: 1 :: nil)%nat) (electrode0 6 (4 :: 5 :: nil)%nat)
    0 false [1/2; 1/2; 0; 0; 1/2; 1/2; 4; 0] (repeat 0 8).

(** The cell of [sim0] with a negative initial time derivative
    [svdot0[0] = -5]. *)
Definition sim_neg : Simulation :=
  mkSimulation (mkBattery 300 2 1) (mkElectrolyte 3 1)
    (electrode0 2 (0 :: 1 :: nil)%nat) (electrode0 6 (4 :: 5 :: nil)%nat)
    0 false [1/2; 1/2; 0; 0; 1/2; 1/2; 4] [-5; 0; 0; 0; 0; 0; 0].

(** The cell with an anode particle that has no radial node. *)
Definition sim_nomesh : Simulation :=
  mkSimulation (mkBattery 300 2 1) (mkElectrolyte 3 1)
    (electrode0 2 nil) (electrode0 6 (4 :: 5 :: nil)%nat)
    0 false [1/2; 1/2; 0; 0; 1/2; 1/2; 4] (repeat 0 7).

End Example.

(** ** Proof tools *)

(** Split a successful chain of [let*] in hypothesis [H]. *)
Ltac inv_bind H :=
  repeat match type of H with
  | bind ?m _ = Some _ =>
      let E := fresh "E" in
      destruct m eqn:E; cbn [bind] in H; [|discriminate H]
  end.

(** Case on every [let*] of the goal whose scrutinee is not the
    boundary-condition block. *)
Ltac destruct_binds :=
  repeat match goal with
  | |- context [bind ?x _] =>
      lazymatch x with
      | boundary_conditions _ _ _ _ _ _ _ _ _ => fail
      | _ => destruct x; cbn [bind]; try reflexivity
      end
  end.

(** Case on every [let*] of the goal, then close by reflexivity. *)
Ltac destruct_all_binds :=
  repeat match goal with
  | |- context [bind ?x _] => destruct x; cbn [bind]; try reflexivity
  end.

(** Two runs on the same inputs: identify the results of equal scrutinees. *)
Ltac unify_runs :=
  repeat match goal with
  | E : Some ?a = Some ?b |- _ =>
      injection E as E; first [subst b | subst a | clear E]
  | E1 : ?x = Some ?a, E2 : ?x = Some ?b |- _ =>
      tryif constr_eq a b then clear E2
      else (rewrite E1 in E2; injection E2 as E2; subst b)
  end.

(** Reduce the goal's [let*] chain with the equations in context. *)
Ltac push_binds :=
  repeat first
  [ progress cbn [bind]
  | match goal with
    | E : ?x = Some _ |- context [bind ?x _] => rewrite E
    end ].

Ltac inv_residuals H :=
  unfold residuals in H;
  cbn [bind st_sim st_sv st_svdot st_res st_exp bat el an ca t0 flag_post] in H; inv_bind H;
  injection H as <- <-.


Lemma reaction_rate_bv (c : Constants) ed phi_ed phi_el x Li0 T :
  reaction_rate c ed phi_ed phi_el x Li0 T = bv_spec c ed phi_ed phi_el x Li0 T.
Proof.
  unfold reaction_rate, bv_spec, Rdiv. cbv zeta.
  rewrite !Rinv_mult, !Rmult_assoc. reflexivity.
Qed.

Lemma take_idx_last sv ed xs x :
  take_idx sv (r_ptr_Li_ed ed) = Some xs -> last_ xs = Some x ->
  surface_fraction sv ed = Some x.
Proof. intros H1 H2. unfold surface_fraction. rewrite H1. exact H2. Qed.

(** The flux vector built by [solid_flux] is [0 :: inner ++ [-sdot]]. *)
Lemma solid_flux_shape m ed xs T sdot Js :
  solid_flux m ed xs T sdot = Some Js ->
  exists inner, Js = [0] ++ inner ++ [- sdot].
Proof.
  unfold solid_flux. cbn [bind]. intro H. inv_bind H.
  injection H as H. subst Js. eexists. reflexivity.
Qed.

(** With [alpha_a = alpha_c] the rate is [i0/F (exp z - exp (-z))]. *)
Lemma reaction_rate_symmetric c ed phi_ed phi_el x Li0 T :
  alpha_a ed = alpha_c ed ->
  reaction_rate c ed phi_ed phi_el x Li0 T
  = get_i0 ed x Li0 T / F c *
    (exp (alpha_a ed * F c * (phi_ed - phi_el - get_Eeq ed x T) / R_gas c / T)
     - exp (- (alpha_a ed * F c * (phi_ed - phi_el - get_Eeq ed x T) / R_gas c / T))).
Proof.
  intro Ha. unfold reaction_rate. cbv zeta. rewrite <- Ha. repeat f_equal.
  unfold Rdiv. ring.
Qed.

(** *** Frame lemmas for the numpy assignments *)

Lemma replace_nth_length a i v : List.length (replace_nth a i v) = List.length a.
Proof. revert i; induction a as [|x a IH]; intros [|i]; simpl; auto. Qed.

Lemma nth_replace_nth_other a i v k : k <> i -> nth k (replace_nth a i v) 0 = nth k a 0.
Proof.
  revert i k; induction a as [|x a IH]; intros [|i] [|k] Hk; simpl; auto;
    try lia; apply IH; lia.
Qed.

Lemma assign_at_frame a i v a' :
  assign_at a i v = Some a' ->
  List.length a' = List.length a /\ forall k, k <> i -> nth k a' 0 = nth k a 0.
Proof.
  unfold assign_at. destruct (Nat.ltb i (List.length a)); intro H; [|discriminate].
  injection H as <-. split; [apply replace_nth_length|]. intros. apply nth_replace_nth_other; auto.
Qed.

Lemma assign_at_same a i v a' :
  assign_at a i v = Some a' -> nth i a' 0 = v.
Proof.
  unfold assign_at. destruct (Nat.ltb i (List.length a)) eqn:Hi; intro H; [|discriminate].
  injection H as <-. apply Nat.ltb_lt in Hi. revert i Hi.
  induction a as [|x a IH]; intros [|i] Hi; simpl in *; try lia; auto.
  apply IH. lia.
Qed.

Lemma apply_writes_frame w a a' :
  apply_writes w a = Some a' ->
  List.length a' = List.length a /\ forall k, ~ In k (map fst w) -> nth k a' 0 = nth k a 0.
Proof.
  revert a; induction w as [|[i v] w IH]; intros a H; simpl in H.
  - injection H as <-. auto.
  - destruct (assign_at a i v) as [a1|] eqn:E; [|discriminate]. cbn [bind] in H.
    apply assign_at_frame in E as [L1 F1]. apply IH in H as [L2 F2].
    split; [congruence|]. intros k Hk. simpl in Hk.
    rewrite F2, F1; auto.
Qed.

Lemma assign_idx_frame a idx vals a' :
  assign_idx a idx vals = Some a' ->
  List.length a' = List.length a /\ forall k, ~ In k idx -> nth k a' 0 = nth k a 0.
Proof.
  unfold assign_idx. intro H.
  destruct (Nat.eqb (List.length vals) (List.length idx)).
  - apply apply_writes_frame in H as [L F1]. split; auto. intros k Hk. apply F1.
    intro Hin. apply in_map_iff in Hin as [[k' v] [Hk' Hin]]. simpl in Hk'. subst k'.
    apply in_combine_l in Hin. auto.
  - destruct (Nat.eqb (List.length vals) 1); [|discriminate].
    apply apply_writes_frame in H as [L F1]. split; auto. intros k Hk. apply F1.
    rewrite map_map. simpl. rewrite map_id. exact Hk.
Qed.

Lemma solid_com_frame m ed svdot Js res res' :
  solid_com m ed svdot res Js = Some res' ->
  List.length res' = List.length res /\
  forall k, ~ In k (r_ptr_Li_ed ed) -> nth k res' 0 = nth k res 0.
Proof.
  unfold solid_com. intro H. inv_bind H. eapply assign_idx_frame; eassumption.
Qed.

Lemma two_writes_frame res i v j w res' :
  (let* r1 := assign_at res i v in assign_at r1 j w) = Some res' ->
  List.length res' = List.length res /\
  forall k, k <> i -> k <> j -> nth k res' 0 = nth k res 0.
Proof.
  intro H. inv_bind H.
  apply assign_at_frame in E as [L1 F1]. apply assign_at_frame in H as [L2 F2].
  split; [congruence|]. intros k Hi Hj. rewrite F2, F1; auto.
Qed.

Lemma boundary_conditions_frame c sim ex t sa sc vV pW res res' :
  boundary_conditions c sim ex t sa sc vV pW res = Some res' ->
  List.length res' = List.length res /\
  forall k, k <> ptr_phi_ed (ca sim) -> k <> ptr_phi_el (el sim) -> nth k res' 0 = nth k res 0.
Proof.
  unfold boundary_conditions. intro H.
  repeat match type of H with
  | (if ?b then _ else _) = _ => destruct b
  end;
  first [ eapply two_writes_frame; exact H | injection H as <-; auto ].
Qed.

Lemma boundary_conditions_unsupported c sim ex t sa sc vV pW res :
  supported (mode ex) (units ex) = false ->
  boundary_conditions c sim ex t sa sc vV pW res = Some res.
Proof.
  unfold supported, boundary_conditions. intro H.
  repeat rewrite orb_false_iff in H. destruct H as [[[H1 H2] H3] H4].
  rewrite H1, H2, H3, H4. reflexivity.
Qed.

(** *** The band scan *)

Section BandScan.

Local Open Scope nat_scope.

Lemma nz_spec x : nz x = true <-> x <> 0%R.
Proof.
  unfold nz. destruct (Rlt_dec 0 (Rabs x)) as [H|H]; split; intro H'; auto; try discriminate.
  - intro Hx. subst x. rewrite Rabs_R0 in H. lra.
  - exfalso. apply H. apply Rabs_pos_lt. exact H'.
Qed.

Lemma nz_0 : nz 0%R = false.
Proof. destruct (nz 0%R) eqn:H; auto. apply nz_spec in H. lra. Qed.

Lemma nth_nil_R j : nth j (@nil R) 0%R = 0%R.
Proof. destruct j; reflexivity. Qed.

Lemma in_where_nz k a j :
  In j (where_nz k a) <-> k <= j /\ nz (nth (j - k) a 0%R) = true.
Proof.
  revert k; induction a as [|x a IH]; intro k; cbn [where_nz].
  - rewrite nth_nil_R, nz_0. split; [intros []|]. intros [_ H]; discriminate.
  - destruct (nz x) eqn:Hx; [cbn [In]|]; rewrite IH; split.
    + intros [<- | [Hle Hn]].
      * rewrite Nat.sub_diag. auto.
      * split; [lia|]. replace (j - k) with (S (j - S k)) by lia. exact Hn.
    + intros [Hle Hn]. destruct (Nat.eq_dec j k) as [->|Hne]; [left; reflexivity|right].
      split; [lia|]. replace (j - k) with (S (j - S k)) in Hn by lia. exact Hn.
    + intros [Hle Hn]. split; [lia|]. replace (j - k) with (S (j - S k)) by lia. exact Hn.
    + intros [Hle Hn]. destruct (Nat.eq_dec j k) as [->|Hne].
      * rewrite Nat.sub_diag in Hn. cbn in Hn. congruence.
      * split; [lia|]. replace (j - k) with (S (j - S k)) in Hn by lia. exact Hn.
Qed.

Lemma where_nz_hd k a j0 rest :
  where_nz k a = j0 :: rest -> forall j, In j (where_nz k a) -> j0 <= j.
Proof.
  revert k; induction a as [|x a IH]; intros k H j Hj; cbn [where_nz] in H; [discriminate|].
  destruct (nz x) eqn:Hx.
  - injection H as <- _. apply in_where_nz in Hj. lia.
  - cbn [where_nz] in Hj. rewrite Hx in Hj. eapply IH; eauto.
Qed.

Lemma last_nat_in l k0 : last_nat l = Some k0 -> In k0 l.
Proof.
  induction l as [|x l IH]; intro H; [discriminate|].
  destruct l as [|y l].
  - injection H as <-. left; reflexivity.
  - right. apply IH. exact H.
Qed.

Lemma last_nat_none l : last_nat l = None -> l = [].
Proof.
  induction l as [|x l IH]; intro H; auto.
  destruct l as [|y l]; [discriminate|]. specialize (IH H). discriminate.
Qed.

Lemma where_nz_last k a k0 :
  last_nat (where_nz k a) = Some k0 -> forall j, In j (where_nz k a) -> j <= k0.
Proof.
  revert k; induction a as [|x a IH]; intros k H j Hj; cbn [where_nz] in *; [discriminate|].
  destruct (nz x) eqn:Hx.
  - specialize (IH (S k)).
    destruct (where_nz (S k) a) as [|w W] eqn:EW.
    + injection H as <-. destruct Hj as [<-|[]]. lia.
    + change (last_nat (w :: W) = Some k0) in H.
      assert (Hk0 : S k <= k0).
      { apply last_nat_in in H. rewrite <- EW in H. apply in_where_nz in H. lia. }
      destruct Hj as [<-|Hj]; [lia|]. apply IH; auto.
  - apply (IH (S k)); auto.
Qed.

(** The lower-bandwidth candidate of row [i]: the first nonzero column
    below [i] (if any) is the smallest such column. *)
Lemma lower_candidate i row :
  match where_nz 0 (firstn i row) with
  | j0 :: _ => j0 < i /\ nth j0 row 0%R <> 0%R /\
               forall j, j < i -> nth j row 0%R <> 0%R -> j0 <= j
  | [] => forall j, j < i -> nth j row 0%R = 0%R
  end.
Proof.
  assert (Hin : forall j, In j (where_nz 0 (firstn i row)) <-> j < i /\ nth j row 0%R <> 0%R).
  { intro j. rewrite in_where_nz, Nat.sub_0_r, nth_firstn, <- nz_spec.
    destruct (Nat.ltb_spec j i).
    - split; intros [_ Hn]; split; auto; lia.
    - rewrite nz_0. split; intros [Hl Hn]; [discriminate | lia]. }
  destruct (where_nz 0 (firstn i row)) as [|j0 rest] eqn:E.
  - intros j Hj. destruct (Req_EM_T (nth j row 0%R) 0%R) as [|Hn]; auto.
    exfalso. apply (proj2 (Hin j)); auto.
  - assert (H0 : In j0 (j0 :: rest)) by (left; reflexivity).
    apply Hin in H0 as [H1 H2]. repeat split; auto.
    intros j Hj Hn. eapply where_nz_hd; [exact E|]. rewrite E. apply Hin. auto.
Qed.

(** The upper-bandwidth candidate of row [i]: the last nonzero column at
    or above [i] (if any) is the largest such column. *)
Lemma upper_candidate i row :
  match last_nat (where_nz i (skipn i row)) with
  | Some k0 => i <= k0 /\ nth k0 row 0%R <> 0%R /\
               forall j, i <= j -> nth j row 0%R <> 0%R -> j <= k0
  | None => forall j, i <= j -> nth j row 0%R = 0%R
  end.
Proof.
  assert (Hin : forall j, In j (where_nz i (skipn i row)) <-> i <= j /\ nth j row 0%R <> 0%R).
  { intro j. rewrite in_where_nz, nth_skipn, <- nz_spec.
    split; intros [H1 H2]; split; auto; replace (i + (j - i)) with j in * by lia; auto. }
  destruct (last_nat (where_nz i (skipn i row))) as [k0|] eqn:E.
  - pose proof (last_nat_in _ _ E) as H0. apply Hin in H0 as [H1 H2]. repeat split; auto.
    intros j Hj Hn. eapply where_nz_last; [exact E|]. apply Hin. auto.
  - apply last_nat_none in E. intros j Hj.
    destruct (Req_EM_T (nth j row 0%R) 0%R) as [|Hn]; auto.
    exfalso. assert (H : In j (where_nz i (skipn i row))) by (apply Hin; auto).
    rewrite E in H. exact H.
Qed.

Lemma lower_update_spec i row l0 :
  l0 <= lower_update i row l0 /\
  (forall j, j < i -> nth j row 0%R <> 0%R -> i - j <= lower_update i row l0) /\
  (lower_update i row l0 = l0 \/
   exists j, j < i /\ nth j row 0%R <> 0%R /\ lower_update i row l0 = i - j).
Proof.
  pose proof (lower_candidate i row) as HL. unfold lower_update.
  destruct (where_nz 0 (firstn i row)) as [|j0 rest].
  - split; [lia|]. split; [|left; reflexivity].
    intros j Hj Hn. exfalso. exact (Hn (HL j Hj)).
  - destruct HL as (Hj0 & Hn0 & Hmin).
    destruct (Nat.ltb_spec l0 (i - j0)); (split; [lia|split]).
    + intros j Hj Hn. specialize (Hmin j Hj Hn). lia.
    + right. exists j0. auto.
    + intros j Hj Hn. specialize (Hmin j Hj Hn). lia.
    + left. reflexivity.
Qed.

Lemma upper_update_spec i row u0 :
  u0 <= upper_update i row u0 /\
  (forall j, i <= j -> nth j row 0%R <> 0%R -> j - i <= upper_update i row u0) /\
  (upper_update i row u0 = u0 \/
   exists j, i <= j /\ nth j row 0%R <> 0%R /\ upper_update i row u0 = j - i).
Proof.
  pose proof (upper_candidate i row) as HU. unfold upper_update.
  destruct (last_nat (where_nz i (skipn i row))) as [k0|].
  - destruct HU as (Hk0 & Hn0 & Hmax).
    destruct (Nat.ltb_spec u0 (k0 - i)); (split; [lia|split]).
    + intros j Hj Hn. specialize (Hmax j Hj Hn). lia.
    + right. exists k0. auto.
    + intros j Hj Hn. specialize (Hmax j Hj Hn). lia.
    + left. reflexivity.
  - split; [lia|]. split; [|left; reflexivity].
    intros j Hj Hn. exfalso. exact (Hn (HU j Hj)).
Qed.

(** The row loop, started at row index [i0] with running maxima [l0] and
    [u0]: the results bound every candidate and are attained by one, or
    are the initial values. *)
Lemma band_rows_spec rows i0 l0 u0 l u :
  band_rows rows i0 l0 u0 = (l, u) ->
  (l0 <= l /\
   (forall k j, j < i0 + k -> entry rows k j <> 0%R -> i0 + k - j <= l) /\
   (l = l0 \/ exists k j, j < i0 + k /\ entry rows k j <> 0%R /\ l = i0 + k - j)) /\
  (u0 <= u /\
   (forall k j, i0 + k <= j -> entry rows k j <> 0%R -> j - (i0 + k) <= u) /\
   (u = u0 \/ exists k j, i0 + k <= j /\ entry rows k j <> 0%R /\ u = j - (i0 + k))).
Proof.
  unfold entry.
  revert i0 l0 u0; induction rows as [|row rows IH]; intros i0 l0 u0 H; cbn [band_rows] in H.
  - injection H as <- <-.
    assert (Hz : forall k j, nth j (nth k (@nil (list R)) []) 0%R = 0%R)
      by (intros [|k] [|j]; reflexivity).
    split; (split; [lia|split; [intros k j _ Hn; exfalso; exact (Hn (Hz k j)) | left; reflexivity]]).
  - apply IH in H as [[Hl0 [Hlb Hlat]] [Hu0 [Hub Huat]]].
    destruct (lower_update_spec i0 row l0) as (Hl1 & Hlb1 & Hlat1).
    destruct (upper_update_spec i0 row u0) as (Hu1 & Hub1 & Huat1).
    split; (split; [lia|split]).
    + intros [|k] j Hj Hn; cbn [nth] in Hn.
      * specialize (Hlb1 j ltac:(lia) Hn). lia.
      * replace (i0 + S k) with (S i0 + k) in * by lia. exact (Hlb k j Hj Hn).
    + destruct Hlat as [Heq | (k & j & Hj & Hn & Heq)].
      * destruct Hlat1 as [Heq1 | (j & Hj & Hn & Heq1)]; [left; lia|].
        right. exists 0, j. cbn [nth]. repeat split; auto; lia.
      * right. exists (S k), j. cbn [nth]. repeat split; auto; lia.
    + intros [|k] j Hj Hn; cbn [nth] in Hn.
      * specialize (Hub1 j ltac:(lia) Hn). lia.
      * replace (i0 + S k) with (S i0 + k) in * by lia. exact (Hub k j Hj Hn).
    + destruct Huat as [Heq | (k & j & Hj & Hn & Heq)].
      * destruct Huat1 as [Heq1 | (j & Hj & Hn & Heq1)]; [left; lia|].
        right. exists 0, j. cbn [nth]. repeat split; auto; lia.
      * right. exists (S k), j. cbn [nth]. repeat split; auto; lia.
Qed.

Lemma nth_map_zero (f : R -> R) (l : list R) j :
  f 0%R = 0%R -> nth j (map f l) 0%R = f (nth j l 0%R).
Proof.
  intro H0. revert j; induction l as [|x l IH]; intros [|j]; cbn; auto.
Qed.

Lemma pattern_entry jac i j :
  entry (pattern jac) i j = if Req_EM_T (entry jac i j) 0%R then 0%R else 1%R.
Proof.
  unfold entry, pattern.
  assert (Hf : (fun x : R => if Req_EM_T x 0%R then 0%R else 1%R) 0%R = 0%R).
  { cbv beta. destruct (Req_EM_T 0%R 0%R); [reflexivity | congruence]. }
  revert i; induction jac as [|row jac IH]; intros [|i]; cbn [map nth].
  - destruct j; symmetry; exact Hf.
  - destruct j; symmetry; exact Hf.
  - apply (nth_map_zero _ _ _ Hf).
  - apply IH.
Qed.

End BandScan.

(** *** Independence of [residuals] from the incoming residual buffer *)

Section BufferIndependence.

Lemma agree_mono (S S' : nat -> Prop) a1 a2 :
  agree S a1 a2 -> (forall k, S' k -> S k) -> agree S' a1 a2.
Proof. intros [HL HS] H. split; auto. Qed.

Lemma nth_replace_nth_same a i v : (i < List.length a)%nat -> nth i (replace_nth a i v) 0 = v.
Proof.
  revert i; induction a as [|x a IH]; intros [|i] Hi; cbn in *; try lia; auto.
  apply IH. lia.
Qed.

Lemma agree_assign_at {S a1 a2 i v a1'} :
  agree S a1 a2 -> assign_at a1 i v = Some a1' ->
  exists a2', assign_at a2 i v = Some a2' /\ agree (fun k => S k \/ k = i) a1' a2'.
Proof.
  intros [HL HS] H. unfold assign_at in *. rewrite <- HL.
  destruct (Nat.ltb_spec i (List.length a1)) as [Hi|Hi]; [|discriminate].
  injection H as <-. eexists. split; [reflexivity|]. split.
  - rewrite !replace_nth_length. exact HL.
  - intros k [Hk | ->].
    + destruct (Nat.eq_dec k i) as [->|Hne].
      * rewrite !nth_replace_nth_same by lia. reflexivity.
      * rewrite !nth_replace_nth_other by exact Hne. auto.
    + rewrite !nth_replace_nth_same by lia. reflexivity.
Qed.

Lemma agree_apply_writes {w S a1 a2 a1'} :
  agree S a1 a2 -> apply_writes w a1 = Some a1' ->
  exists a2', apply_writes w a2 = Some a2' /\
    agree (fun k => S k \/ In k (map fst w)) a1' a2'.
Proof.
  revert S a1 a2; induction w as [|[i v] w IH]; intros S a1 a2 HA H; cbn [apply_writes] in *.
  - injection H as <-. exists a2. split; [reflexivity|].
    eapply agree_mono; [exact HA|]. intros k [Hk|[]]. exact Hk.
  - inv_bind H. destruct (agree_assign_at HA E) as (b & Eb & Ab).
    destruct (IH _ _ _ Ab H) as (b' & Eb' & Ab').
    exists b'. rewrite Eb. cbn [bind]. split; [exact Eb'|].
    eapply agree_mono; [exact Ab'|]. cbn [map fst In].
    intros k [Hk|[Hk|Hk]]; [left; left; exact Hk | left; right; symmetry; exact Hk | right; exact Hk].
Qed.

Lemma map_fst_combine (idx : list nat) (vals : list R) :
  List.length vals = List.length idx -> map fst (combine idx vals) = idx.
Proof.
  revert vals; induction idx as [|i idx IH]; intros [|v vals] H; cbn in *; try discriminate; auto.
  f_equal. apply IH. lia.
Qed.

Lemma map_fst_pairs (idx : list nat) (v : R) : map fst (map (fun i => (i, v)) idx) = idx.
Proof. induction idx as [|i idx IH]; cbn; congruence. Qed.

Lemma agree_assign_idx {idx vals S a1 a2 a1'} :
  agree S a1 a2 -> assign_idx a1 idx vals = Some a1' ->
  exists a2', assign_idx a2 idx vals = Some a2' /\ agree (fun k => S k \/ In k idx) a1' a2'.
Proof.
  intros HA H. unfold assign_idx in *.
  destruct (Nat.eqb_spec (List.length vals) (List.length idx)) as [Hl|Hl].
  - destruct (agree_apply_writes HA H) as (b & Eb & Ab). exists b. split; [exact Eb|].
    rewrite map_fst_combine in Ab by exact Hl. exact Ab.
  - destruct (Nat.eqb (List.length vals) 1); [|discriminate].
    destruct (agree_apply_writes HA H) as (b & Eb & Ab). exists b. split; [exact Eb|].
    rewrite map_fst_pairs in Ab. exact Ab.
Qed.

Lemma agree_solid_com {m ed svdot Js S a1 a2 a1'} :
  agree S a1 a2 -> solid_com m ed svdot a1 Js = Some a1' ->
  exists a2', solid_com m ed svdot a2 Js = Some a2' /\
    agree (fun k => S k \/ In k (r_ptr_Li_ed ed)) a1' a2'.
Proof.
  intros HA H. unfold solid_com in *. inv_bind H. push_binds.
  exact (agree_assign_idx HA H).
Qed.

Lemma agree_boundary_conditions {c sim ex1 ex2 t sa sc vV pW S a1 a2 a1'} :
  agree S a1 a2 -> mode ex1 = mode ex2 -> units ex1 = units ex2 -> value ex1 = value ex2 ->
  boundary_conditions c sim ex1 t sa sc vV pW a1 = Some a1' ->
  exists a2', boundary_conditions c sim ex2 t sa sc vV pW a2 = Some a2' /\
    agree (fun k => S k \/ (supported (mode ex1) (units ex1) = true /\
                            (k = ptr_phi_ed (ca sim) \/ k = ptr_phi_el (el sim)))) a1' a2'.
Proof.
  intros HA Hm Hu Hv H.
  assert (Hc : forall a, boundary_conditions c sim ex2 t sa sc vV pW a
                         = boundary_conditions c sim ex1 t sa sc vV pW a).
  { intro a. unfold boundary_conditions. rewrite Hm, Hu, Hv. reflexivity. }
  rewrite Hc. clear Hc Hm Hu Hv.
  unfold boundary_conditions, supported in *.
  destruct (String.eqb (mode ex1) "current"), (String.eqb (units ex1) "A"),
    (String.eqb (units ex1) "C"), (String.eqb (mode ex1) "voltage"),
    (String.eqb (mode ex1) "power"); cbn [andb orb] in *;
  first
  [ inv_bind H;
    destruct (agree_assign_at HA E) as (b & Eb & Ab);
    destruct (agree_assign_at Ab H) as (b' & Eb' & Ab');
    exists b'; rewrite Eb; cbn [bind]; split; [exact Eb'|];
    eapply agree_mono; [exact Ab'|]; intros k [Hk|[_ [Hk|Hk]]];
    [left; left; exact Hk | left; right; exact Hk | right; exact Hk]
  | injection H as <-; exists a2; split; [reflexivity|];
    eapply agree_mono; [exact HA|]; intros k [Hk|[Hk _]]; [exact Hk | discriminate Hk] ].
Qed.

Lemma residuals_agree {c m t sim sv svdot ex1 ex2 S a1 a2 s1 r1} :
  agree S a1 a2 -> mode ex1 = mode ex2 -> units ex1 = units ex2 -> value ex1 = value ex2 ->
  residuals c m t (mkStore sim sv svdot a1 ex1) = Some (s1, r1) ->
  exists s2, residuals c m t (mkStore sim sv svdot a2 ex2) = Some (s2, r1) /\
    agree (fun k => S k \/ written sim (mode ex1) (units ex1) k) (st_res s1) (st_res s2) /\
    events (st_exp s2) = events (st_exp s1).
Proof.
  intros HA Hm Hu Hv H. inv_residuals H.
  unfold residuals. cbn [bind st_sim st_sv st_svdot st_res st_exp].
  repeat first
  [ progress cbn [bind]
  | match goal with
    | E : ?x = Some _ |- context [bind ?x _] => rewrite E
    end
  | match goal with
    | A : agree _ ?b1 _, E : solid_com _ _ _ ?b1 _ = Some _ |- _ =>
        destruct (agree_solid_com A E) as (? & ? & ?); clear A E
    | A : agree _ ?b1 _, E : assign_at ?b1 _ _ = Some _ |- _ =>
        destruct (agree_assign_at A E) as (? & ? & ?); clear A E
    | A : agree _ ?b1 _, E : boundary_conditions _ _ _ _ _ _ _ _ ?b1 = Some _ |- _ =>
        destruct (agree_boundary_conditions (ex2 := ex2) A Hm Hu Hv E) as (? & ? & ?); clear A E
    end ].
  eexists. split; [reflexivity|]. split; [|reflexivity]. cbn [st_res].
  match goal with A : agree _ _ _ |- _ => eapply agree_mono; [exact A|] end.
  unfold written. intros k Hk. tauto.
Qed.

Lemma written_dec sim md un k : {written sim md un k} + {~ written sim md un k}.
Proof.
  unfold written.
  destruct (in_dec Nat.eq_dec k (r_ptr_Li_ed (an sim))); [left; tauto|].
  destruct (Nat.eq_dec k (ptr_phi_ed (an sim))); [left; tauto|].
  destruct (in_dec Nat.eq_dec k (r_ptr_Li_ed (ca sim))); [left; tauto|].
  destruct (supported md un) eqn:Hs.
  - destruct (Nat.eq_dec k (ptr_phi_ed (ca sim))); [left; tauto|].
    destruct (Nat.eq_dec k (ptr_phi_el (el sim))); [left; tauto|].
    right. tauto.
  - right. intros [H|[H|[H|[H _]]]]; auto. discriminate H.
Qed.

(** The rows outside [written] keep the buffer's values, and the
    experiment's mode, units and value are kept. *)
Lemma residuals_out_frame c m t sim sv svdot a ex s1 r1 :
  residuals c m t (mkStore sim sv svdot a ex) = Some (s1, r1) ->
  List.length (st_res s1) = List.length a /\
  mode (st_exp s1) = mode ex /\ units (st_exp s1) = units ex /\ value (st_exp s1) = value ex /\
  forall k, ~ written sim (mode ex) (units ex) k -> nth k (st_res s1) 0 = nth k a 0.
Proof.
  intro H. inv_residuals H. cbn [st_res st_exp set_events mode units value].
  match goal with
  | B : boundary_conditions _ _ _ _ _ _ _ _ _ = Some _ |- _ =>
      pose proof B as B'; apply boundary_conditions_frame in B as [LB FB]
  end.
  match goal with
  | S1 : solid_com _ (an _) _ _ _ = Some _,
    A1 : assign_at _ _ _ = Some _,
    S2 : solid_com _ (ca _) _ _ _ = Some _ |- _ =>
      apply solid_com_frame in S1 as [L1 F1];
      apply assign_at_frame in A1 as [L2 F2];
      apply solid_com_frame in S2 as [L3 F3]
  end.
  split; [congruence|]. split; [reflexivity|]. split; [reflexivity|]. split; [reflexivity|].
  intros k Hk. unfold written in Hk.
  destruct (supported (mode ex) (units ex)) eqn:Hs.
  - rewrite FB by tauto. rewrite F3, F2, F1 by tauto. reflexivity.
  - rewrite boundary_conditions_unsupported in B' by exact Hs. injection B' as <-.
    rewrite F3, F2, F1 by tauto. reflexivity.
Qed.

End BufferIndependence.

(** *** The probing loops of [bandwidth] *)

Section Probing.

Variable c : Constants.
Variable m : MathOps.

(** A call made with a threaded buffer and dict computes what a fresh
    call on a zero buffer with the OCV experiment computes. *)
Lemma probe_call sim sv svdot b ex s r :
  ok_buffer sim b -> ocv_like ex ->
  residuals c m 0 (mkStore sim sv svdot b ex) = Some (s, r) ->
  fresh_res c m sim sv svdot = Some (st_res s) /\ ok_buffer sim (st_res s) /\
  ocv_like (st_exp s).
Proof.
  intros [HL HZ] (Hm & Hu & Hv) H.
  set (Z := repeat 0 (List.length (sv0 sim))).
  assert (HA : agree (fun k => ~ written sim (mode ex) (units ex) k) b Z).
  { split; [unfold Z; rewrite repeat_length; exact HL|].
    intros k Hk. rewrite Hm, Hu in Hk. rewrite HZ by exact Hk.
    unfold Z. symmetry. apply nth_repeat. }
  destruct (residuals_agree (ex2 := ocv_exp) HA Hm Hu Hv H) as (s2 & E2 & (HL2 & HA2) & _).
  destruct (residuals_out_frame _ _ _ _ _ _ _ _ _ _ H) as (_ & Hm1 & Hu1 & Hv1 & _).
  destruct (residuals_out_frame _ _ _ _ _ _ _ _ _ _ E2) as (HL3 & _ & _ & _ & HF3).
  assert (Heq : st_res s = st_res s2).
  { apply nth_ext with (d := 0) (d' := 0); [exact HL2|]. intros k _.
    apply HA2. destruct (written_dec sim (mode ex) (units ex) k); [right|left]; assumption. }
  unfold fresh_res. fold Z. rewrite E2. cbn [bind fst]. rewrite Heq.
  split; [reflexivity|]. split; [split|].
  - rewrite HL3. unfold Z. apply repeat_length.
  - intros k Hk. rewrite HF3 by exact Hk. unfold Z. apply nth_repeat.
  - unfold ocv_like. rewrite Hm1, Hu1, Hv1. auto.
Qed.

Lemma nth_zip_with (f : R -> R -> R) a b i :
  List.length a = List.length b -> f 0 0 = 0 ->
  nth i (zip_with f a b) 0 = f (nth i a 0) (nth i b 0).
Proof.
  intros HL Hf. revert b i HL.
  induction a as [|x a IH]; intros [|y b] [|i] HL; cbn [zip_with nth List.length] in *;
    try discriminate; auto; try (destruct i; symmetry; exact Hf); apply IH; lia.
Qed.

Lemma zip_with_length (f : R -> R -> R) a b :
  List.length a = List.length b -> List.length (zip_with f a b) = List.length a.
Proof.
  revert b; induction a as [|x a IH]; intros [|y b] H; cbn in *; try lia.
  f_equal. apply IH. lia.
Qed.

Lemma bcast_same_length (f : R -> R -> R) a b :
  List.length a = List.length b -> bcast f a b = Some (zip_with f a b).
Proof. intro HL. unfold bcast. rewrite HL, Nat.eqb_refl. reflexivity. Qed.

Lemma zip_rows_length f rows col :
  List.length rows = List.length col -> List.length (zip_rows f rows col) = List.length rows.
Proof.
  revert col; induction rows as [|row rows IH]; intros [|v col] H; cbn in *; try lia.
  f_equal. apply IH. lia.
Qed.

Lemma zip_rows_nth f rows col i :
  List.length rows = List.length col -> f [] 0 = [] ->
  nth i (zip_rows f rows col) [] = f (nth i rows []) (nth i col 0).
Proof.
  intros HL Hf. revert col i HL.
  induction rows as [|row rows IH]; intros [|v col] [|i] HL; cbn [zip_rows nth List.length] in *;
    try discriminate; auto; try (destruct i; symmetry; exact Hf); apply IH; lia.
Qed.

(** [jac[:, j] = col] on an [N x N] matrix. *)
Lemma set_col_entry N jac j col jac' :
  square N jac -> (j < N)%nat -> List.length col = N -> set_col jac j col = Some jac' ->
  square N jac' /\ (forall i, entry jac' i j = nth i col 0) /\
  (forall i k, k <> j -> entry jac' i k = entry jac i k).
Proof.
  intros [HL HR] Hj Hc H. unfold set_col in H. rewrite Hc, HL, Nat.eqb_refl in H.
  injection H as <-.
  assert (Hn : forall i, nth i (zip_rows (fun row v => replace_nth row j v) jac col) []
                         = replace_nth (nth i jac []) j (nth i col 0)).
  { intro i. apply zip_rows_nth; [lia | reflexivity]. }
  split; [split|split].
  - rewrite zip_rows_length; lia.
  - intros i Hi. rewrite Hn, replace_nth_length. auto.
  - intro i. unfold entry. rewrite Hn. destruct (Nat.lt_ge_cases i N) as [Hi|Hi].
    + apply nth_replace_nth_same. rewrite HR; auto.
    + rewrite (nth_overflow jac) by lia. rewrite (nth_overflow col) by lia.
      destruct j; reflexivity.
  - intros i k Hk. unfold entry. rewrite Hn. apply nth_replace_nth_other. exact Hk.
Qed.

(** [jac[:, j] += col] on an [N x N] matrix. *)
Lemma add_col_entry N jac j col jac' :
  square N jac -> (j < N)%nat -> List.length col = N -> add_col jac j col = Some jac' ->
  square N jac' /\ (forall i, entry jac' i j = entry jac i j + nth i col 0) /\
  (forall i k, k <> j -> entry jac' i k = entry jac i k).
Proof.
  intros [HL HR] Hj Hc H. unfold add_col in H. rewrite Hc, HL, Nat.eqb_refl in H.
  injection H as <-.
  assert (Hn : forall i,
             nth i (zip_rows (fun row v => replace_nth row j (nth j row 0 + v)) jac col) []
             = replace_nth (nth i jac []) j (nth j (nth i jac []) 0 + nth i col 0)).
  { intro i. apply zip_rows_nth; [lia | reflexivity]. }
  split; [split|split].
  - rewrite zip_rows_length; lia.
  - intros i Hi. rewrite Hn, replace_nth_length. auto.
  - intro i. unfold entry. rewrite Hn. destruct (Nat.lt_ge_cases i N) as [Hi|Hi].
    + apply nth_replace_nth_same. rewrite HR; auto.
    + rewrite (nth_overflow jac) by lia. rewrite (nth_overflow col) by lia.
      destruct j; cbn; ring.
  - intros i k Hk. unfold entry. rewrite Hn. apply nth_replace_nth_other. exact Hk.
Qed.

(** [dsv[j] = sv[j] + max(1e-6, 1e-6*sv[j])] is [bump]. *)
Lemma perturb_bump a j y a' :
  at_ a j = Some y -> assign_at a j (y + step y) = Some a' -> a' = bump a j.
Proof.
  unfold at_, assign_at, bump. intros Hy H.
  destruct (Nat.ltb (j) (List.length a)); [|discriminate]. injection H as <-.
  assert (Hn : nth j a 0 = y) by (apply nth_error_nth; exact Hy).
  rewrite Hn. reflexivity.
Qed.

(** The first loop sets column [j] to [res_0 - fresh(bump sv j)]. *)
Lemma probe_sv_spec sim sv svdot res_0 js b ex jac jac' b' ex' :
  List.length res_0 = List.length (sv0 sim) ->
  square (List.length (sv0 sim)) jac ->
  (forall j, In j js -> (j < List.length (sv0 sim))%nat) ->
  ok_buffer sim b -> ocv_like ex ->
  probe_sv c m sim sv svdot res_0 js b ex jac = Some (jac', b', ex') ->
  square (List.length (sv0 sim)) jac' /\ ok_buffer sim b' /\ ocv_like ex' /\
  (forall i j, In j js -> exists r1, fresh_res c m sim (bump sv j) svdot = Some r1 /\
     entry jac' i j = nth i res_0 0 - nth i r1 0) /\
  (forall i j, ~ In j js -> entry jac' i j = entry jac i j).
Proof.
  intros H0 Hsq Hjs. revert b ex jac Hsq.
  induction js as [|j0 js IH]; intros b ex jac Hsq Hb Hex H; cbn [probe_sv] in H.
  - injection H as <- <- <-. split; [exact Hsq|]. split; [exact Hb|]. split; [exact Hex|].
    split; [intros i j []|intros; reflexivity].
  - inv_bind H. destruct p as [s r]. cbn [fst] in *.
    pose proof (perturb_bump _ _ _ _ E E0) as ->.
    destruct (probe_call _ _ _ _ _ _ _ Hb Hex E1) as (Hf & Hb1 & Hex1).
    assert (HL1 : List.length (st_res s) = List.length (sv0 sim)) by apply Hb1.
    rewrite bcast_same_length in E2 by congruence. injection E2 as <-.
    assert (Hc : List.length (zip_with Rminus res_0 (st_res s)) = List.length (sv0 sim))
      by (rewrite zip_with_length by congruence; exact H0).
    destruct (set_col_entry _ _ _ _ _ Hsq (Hjs j0 (or_introl eq_refl)) Hc E3) as (Hsq1 & Hset & Hoth).
    destruct (IH (fun j Hj => Hjs j (or_intror Hj)) _ _ _ Hsq1 Hb1 Hex1 H)
      as (Hsq' & Hb' & Hex' & Hin & Hout).
    split; [exact Hsq'|]. split; [exact Hb'|]. split; [exact Hex'|]. split.
    + intros i j Hj. destruct (in_dec Nat.eq_dec j js) as [Hj'|Hj']; [exact (Hin i j Hj')|].
      destruct Hj as [<-|Hj]; [|contradiction].
      exists (st_res s). split; [exact Hf|].
      rewrite Hout by exact Hj'. rewrite Hset.
      apply nth_zip_with; [congruence | ring].
    + intros i j Hj. rewrite Hout by (intro; apply Hj; right; assumption).
      apply Hoth. intro; apply Hj; left; congruence.
Qed.

(** The second loop adds [res_0 - fresh(bump svdot j)] to column [j]. *)
Lemma probe_svdot_spec sim sv svdot res_0 js b ex jac jac' b' ex' :
  List.length res_0 = List.length (sv0 sim) ->
  square (List.length (sv0 sim)) jac ->
  (forall j, In j js -> (j < List.length (sv0 sim))%nat) -> NoDup js ->
  ok_buffer sim b -> ocv_like ex ->
  probe_svdot c m sim sv svdot res_0 js b ex jac = Some (jac', b', ex') ->
  square (List.length (sv0 sim)) jac' /\
  (forall i j, In j js -> exists r2, fresh_res c m sim sv (bump svdot j) = Some r2 /\
     entry jac' i j = entry jac i j + (nth i res_0 0 - nth i r2 0)) /\
  (forall i j, ~ In j js -> entry jac' i j = entry jac i j).
Proof.
  intros H0 Hsq Hjs Hnd. revert b ex jac Hsq.
  induction js as [|j0 js IH]; intros b ex jac Hsq Hb Hex H; cbn [probe_svdot] in H.
  - injection H as <- <- <-. split; [exact Hsq|]. split; [intros i j []|intros; reflexivity].
  - apply NoDup_cons_iff in Hnd as [Hnin Hnd].
    inv_bind H. destruct p as [s r]. cbn [fst] in *.
    pose proof (perturb_bump _ _ _ _ E E0) as ->.
    destruct (probe_call _ _ _ _ _ _ _ Hb Hex E1) as (Hf & Hb1 & Hex1).
    assert (HL1 : List.length (st_res s) = List.length (sv0 sim)) by apply Hb1.
    rewrite bcast_same_length in E2 by congruence. injection E2 as <-.
    assert (Hc : List.length (zip_with Rminus res_0 (st_res s)) = List.length (sv0 sim))
      by (rewrite zip_with_length by congruence; exact H0).
    destruct (add_col_entry _ _ _ _ _ Hsq (Hjs j0 (or_introl eq_refl)) Hc E3) as (Hsq1 & Hadd & Hoth).
    destruct (IH (fun j Hj => Hjs j (or_intror Hj)) Hnd _ _ _ Hsq1 Hb1 Hex1 H)
      as (Hsq' & Hin & Hout).
    split; [exact Hsq'|]. split.
    + intros i j [<-|Hj].
      * exists (st_res s). split; [exact Hf|].
        rewrite Hout by exact Hnin. rewrite Hadd. f_equal.
        apply nth_zip_with; [congruence | ring].
      * destruct (Hin i j Hj) as (r2 & Hr2 & He). exists r2. split; [exact Hr2|].
        rewrite He, Hoth; [reflexivity|]. intros ->. contradiction.
    + intros i j Hj. rewrite Hout by (intro; apply Hj; right; assumption).
      apply Hoth. intro; apply Hj; left; congruence.
Qed.

(** The matrix [jacobian] builds, column by column, from fresh probes. *)
Lemma jacobian_fresh sim jac :
  jacobian c m sim = Some jac ->
  exists base, fresh_res c m sim (sv0 sim) (svdot0 sim) = Some base /\
    square (List.length (sv0 sim)) jac /\
    forall i j, (j < List.length (sv0 sim))%nat ->
      exists r1 r2,
        fresh_res c m sim (bump (sv0 sim) j) (svdot0 sim) = Some r1 /\
        fresh_res c m sim (sv0 sim) (bump (svdot0 sim) j) = Some r2 /\
        entry jac i j = (nth i base 0 - nth i r1 0) + (nth i base 0 - nth i r2 0).
Proof.
  intro H. unfold jacobian in H. cbv zeta in H.
  match type of H with bind ?x _ = Some _ => destruct x as [[s0 r0]|] eqn:E0 end;
    cbn [bind fst] in H; [|discriminate H].
  match type of H with bind ?x _ = Some _ => destruct x as [[[jac1 b1] ex1]|] eqn:E1 end;
    cbn [bind] in H; [|discriminate H].
  match type of H with bind ?x _ = Some _ => destruct x as [[[jac2 b2] ex2]|] eqn:E2 end;
    cbn [bind] in H; [|discriminate H].
  injection H as <-.
  assert (Hz : ok_buffer sim (repeat 0 (List.length (sv0 sim)))).
  { split; [apply repeat_length | intros; apply nth_repeat]. }
  assert (Ho : ocv_like ocv_exp) by (repeat split).
  destruct (probe_call _ _ _ _ _ _ _ Hz Ho E0) as (Hf0 & Hb0 & Hex0).
  assert (Hsq : square (List.length (sv0 sim))
                  (repeat (repeat 0 (List.length (sv0 sim))) (List.length (sv0 sim)))).
  { split; [apply repeat_length|]. intros i Hi. rewrite nth_repeat_lt by exact Hi.
    apply repeat_length. }
  assert (Hseq : forall j, In j (seq 0 (List.length (sv0 sim))) -> (j < List.length (sv0 sim))%nat)
    by (intros j Hj; apply in_seq in Hj; lia).
  destruct (probe_sv_spec _ _ _ _ _ _ _ _ _ _ _ (proj1 Hb0) Hsq Hseq Hb0 Hex0 E1)
    as (Hsq1 & Hb1 & Hex1 & Hin1 & _).
  destruct (probe_svdot_spec _ _ _ _ _ _ _ _ _ _ _ (proj1 Hb0) Hsq1 Hseq (seq_NoDup _ _)
              Hb1 Hex1 E2) as (Hsq2 & Hin2 & _).
  exists (st_res s0). split; [exact Hf0|]. split; [exact Hsq2|].
  intros i j Hj. assert (Hj' : In j (seq 0 (List.length (sv0 sim)))) by (apply in_seq; lia).
  destruct (Hin2 i j Hj') as (r2 & Hr2 & He2). destruct (Hin1 i j Hj') as (r1 & Hr1 & He1).
  exists r1, r2. split; [exact Hr1|]. split; [exact Hr2|]. rewrite He2, He1. reflexivity.
Qed.

End Probing.

(** *** What [residuals] reads, and where it can fail *)

Section Locality.

Variable c : Constants.
Variable m : MathOps.

Lemma take_idx_ext a b idx :
  (forall i, In i idx -> nth_error a i = nth_error b i) -> take_idx a idx = take_idx b idx.
Proof.
  induction idx as [|i idx IH]; intro H; cbn [take_idx]; [reflexivity|].
  unfold at_. rewrite (H i (or_introl eq_refl)).
  rewrite IH by (intros k Hk; apply H; right; exact Hk). reflexivity.
Qed.

Lemma nth_error_replace_nth_other a i v k :
  k <> i -> nth_error (replace_nth a i v) k = nth_error a k.
Proof.
  revert i k; induction a as [|x a IH]; intros [|i] [|k] H; cbn; auto; try lia.
Qed.

Lemma at_lt a i x : at_ a i = Some x -> (i < List.length a)%nat.
Proof. unfold at_. intro H. apply nth_error_Some. congruence. Qed.

Lemma take_idx_in_range a idx xs :
  take_idx a idx = Some xs -> forall k, In k idx -> (k < List.length a)%nat.
Proof.
  revert xs; induction idx as [|i idx IH]; intros xs H k Hk; [destruct Hk|].
  cbn [take_idx] in H.
  destruct (at_ a i) as [x|] eqn:E1; cbn [bind] in H; [|discriminate H].
  destruct (take_idx a idx) as [ys|] eqn:E2; cbn [bind] in H; [|discriminate H].
  destruct Hk as [<- | Hk]; [exact (at_lt _ _ _ E1) | exact (IH ys eq_refl k Hk)].
Qed.

Lemma assign_at_lt a i v a' : assign_at a i v = Some a' -> (i < List.length a)%nat.
Proof.
  unfold assign_at. destruct (Nat.ltb_spec i (List.length a)); [auto | discriminate].
Qed.

Lemma apply_writes_lt w a a' :
  apply_writes w a = Some a' -> forall k, In k (map fst w) -> (k < List.length a)%nat.
Proof.
  revert a; induction w as [|[i v] w IH]; intros a H k Hk; [destruct Hk|].
  cbn [apply_writes] in H. destruct (assign_at a i v) as [a1|] eqn:E; cbn [bind] in H;
    [|discriminate H].
  cbn [map fst] in Hk. destruct Hk as [<- | Hk]; [exact (assign_at_lt _ _ _ _ E)|].
  destruct (assign_at_frame _ _ _ _ E) as [L _]. rewrite <- L. exact (IH a1 H k Hk).
Qed.

Lemma assign_idx_lt a idx vals a' :
  assign_idx a idx vals = Some a' -> forall k, In k idx -> (k < List.length a)%nat.
Proof.
  unfold assign_idx. intros H k Hk.
  destruct (Nat.eqb_spec (List.length vals) (List.length idx)) as [HL|_].
  - apply (apply_writes_lt _ _ _ H). rewrite map_fst_combine by exact HL. exact Hk.
  - destruct (Nat.eqb (List.length vals) 1); [|discriminate H].
    apply (apply_writes_lt _ _ _ H). rewrite map_fst_pairs. exact Hk.
Qed.

Lemma solid_com_lt ed svdot res Js res' :
  solid_com m ed svdot res Js = Some res' ->
  forall k, In k (r_ptr_Li_ed ed) ->
    (k < List.length svdot)%nat /\ (k < List.length res)%nat.
Proof.
  unfold solid_com. intros H k Hk.
  destruct (take_idx svdot (r_ptr_Li_ed ed)) as [xdot|] eqn:E1; cbn [bind] in H;
    [|discriminate H].
  match type of H with bind ?x _ = _ => destruct x as [rows|]; cbn [bind] in H end;
    [|discriminate H].
  split; [exact (take_idx_in_range _ _ _ E1 k Hk) | exact (assign_idx_lt _ _ _ _ H k Hk)].
Qed.

Lemma boundary_conditions_lt sim ex t sa sc vV pW res res' :
  boundary_conditions c sim ex t sa sc vV pW res = Some res' ->
  supported (mode ex) (units ex) = true ->
  (ptr_phi_ed (ca sim) < List.length res)%nat /\ (ptr_phi_el (el sim) < List.length res)%nat.
Proof.
  unfold boundary_conditions, supported. intros H Hs.
  destruct (String.eqb (mode ex) "current"), (String.eqb (units ex) "A"),
    (String.eqb (units ex) "C"), (String.eqb (mode ex) "voltage"),
    (String.eqb (mode ex) "power"); cbn [andb orb] in *;
  first
  [ discriminate Hs
  | inv_bind H; destruct (assign_at_frame _ _ _ _ E) as [L _];
    split; [exact (assign_at_lt _ _ _ _ E) | rewrite <- L; exact (assign_at_lt _ _ _ _ H)] ].
Qed.

Lemma solid_com_svdot ed svdot1 svdot2 res Js :
  (forall k, In k (r_ptr_Li_ed ed) -> nth_error svdot1 k = nth_error svdot2 k) ->
  solid_com m ed svdot1 res Js = solid_com m ed svdot2 res Js.
Proof. intro H. unfold solid_com. rewrite (take_idx_ext _ _ _ H). reflexivity. Qed.

Lemma boundary_conditions_time sim ex t1 t2 sa sc vV pW res :
  value ex t1 = value ex t2 ->
  boundary_conditions c sim ex t1 sa sc vV pW res = boundary_conditions c sim ex t2 sa sc vV pW res.
Proof. intro H. unfold boundary_conditions. cbv zeta. rewrite H. reflexivity. Qed.

(** [residuals] reads [sv] only at [reads_sv]. *)
Lemma residuals_sv_local t sim sv1 sv2 svdot res ex :
  (forall k, reads_sv sim k -> nth_error sv1 k = nth_error sv2 k) ->
  outputs (residuals c m t (mkStore sim sv1 svdot res ex)) =
  outputs (residuals c m t (mkStore sim sv2 svdot res ex)).
Proof.
  intro H. unfold residuals. cbn [st_sim st_sv st_svdot st_res st_exp].
  assert (HA : forall k, reads_sv sim k -> at_ sv1 k = at_ sv2 k) by exact H.
  rewrite (HA (ptr_phi_ed (an sim))), (HA (ptr_phi_el (el sim))), (HA (ptr_phi_ed (ca sim)))
    by (unfold reads_sv; tauto).
  rewrite (take_idx_ext sv1 sv2 (r_ptr_Li_ed (an sim))),
    (take_idx_ext sv1 sv2 (r_ptr_Li_ed (ca sim)))
    by (intros k Hk; apply H; unfold reads_sv; tauto).
  destruct_all_binds.
Qed.

(** [residuals] reads [svdot] only at [reads_svdot]. *)
Lemma residuals_svdot_local t sim sv svdot1 svdot2 res ex :
  (forall k, reads_svdot sim k -> nth_error svdot1 k = nth_error svdot2 k) ->
  outputs (residuals c m t (mkStore sim sv svdot1 res ex)) =
  outputs (residuals c m t (mkStore sim sv svdot2 res ex)).
Proof.
  intro H. unfold residuals. cbn [st_sim st_sv st_svdot st_res st_exp].
  repeat first
  [ match goal with
    | |- context [solid_com m ?ed svdot1 ?r ?J] =>
        rewrite (solid_com_svdot ed svdot1 svdot2 r J)
          by (intros k Hk; apply H; unfold reads_svdot; tauto)
    end
  | match goal with
    | |- context [bind ?x _] => destruct x; cbn [bind]; try reflexivity
    end ].
Qed.

Lemma fresh_res_sv_local sim sv1 sv2 svdot :
  (forall k, reads_sv sim k -> nth_error sv1 k = nth_error sv2 k) ->
  fresh_res c m sim sv1 svdot = fresh_res c m sim sv2 svdot.
Proof.
  intro H. unfold fresh_res.
  pose proof (residuals_sv_local 0 sim sv1 sv2 svdot
                (repeat 0 (List.length (sv0 sim))) ocv_exp H) as E.
  unfold outputs in E.
  destruct (residuals c m 0 (mkStore sim sv1 svdot (repeat 0 (List.length (sv0 sim))) ocv_exp))
    as [[s1 r1]|], (residuals c m 0 (mkStore sim sv2 svdot (repeat 0 (List.length (sv0 sim))) ocv_exp))
    as [[s2 r2]|]; cbn [option_map bind fst snd] in E |- *; try discriminate E; [|reflexivity].
  injection E as E1 _ _. rewrite E1. reflexivity.
Qed.

Lemma fresh_res_svdot_local sim sv svdot1 svdot2 :
  (forall k, reads_svdot sim k -> nth_error svdot1 k = nth_error svdot2 k) ->
  fresh_res c m sim sv svdot1 = fresh_res c m sim sv svdot2.
Proof.
  intro H. unfold fresh_res.
  pose proof (residuals_svdot_local 0 sim sv svdot1 svdot2
                (repeat 0 (List.length (sv0 sim))) ocv_exp H) as E.
  unfold outputs in E.
  destruct (residuals c m 0 (mkStore sim sv svdot1 (repeat 0 (List.length (sv0 sim))) ocv_exp))
    as [[s1 r1]|], (residuals c m 0 (mkStore sim sv svdot2 (repeat 0 (List.length (sv0 sim))) ocv_exp))
    as [[s2 r2]|]; cbn [option_map bind fst snd] in E |- *; try discriminate E; [|reflexivity].
  injection E as E1 _ _. rewrite E1. reflexivity.
Qed.

Lemma fresh_res_ok_buffer sim sv svdot r :
  fresh_res c m sim sv svdot = Some r -> ok_buffer sim r.
Proof.
  unfold fresh_res. intro H.
  destruct (residuals c m 0 (mkStore sim sv svdot (repeat 0 (List.length (sv0 sim))) ocv_exp))
    as [[s1 r1]|] eqn:E; cbn [bind fst] in H; [|discriminate H].
  injection H as <-.
  destruct (residuals_out_frame _ _ _ _ _ _ _ _ _ _ E) as (HL & _ & _ & _ & HF).
  split; [rewrite HL; apply repeat_length|].
  intros k Hk. rewrite HF by exact Hk. apply nth_repeat.
Qed.

Lemma entry_square_out N a i j :
  square N a -> (N <= i \/ N <= j)%nat -> entry a i j = 0.
Proof.
  intros [HL Hrow] H. unfold entry.
  destruct (Nat.lt_ge_cases i N) as [Hi|Hi].
  - destruct H as [H|H]; [lia|]. apply nth_overflow. rewrite Hrow by exact Hi. exact H.
  - rewrite (nth_overflow a (n := i) []) by lia. destruct j; reflexivity.
Qed.

Lemma entry_square_nonzero N a i j :
  square N a -> entry a i j <> 0 -> (i < N)%nat /\ (j < N)%nat.
Proof.
  intros Hsq Hn.
  destruct (Nat.lt_ge_cases i N), (Nat.lt_ge_cases j N); try (split; assumption);
    exfalso; apply Hn; apply (entry_square_out N); auto.
Qed.

Lemma pattern_row jac i :
  nth i (pattern jac) [] = map (fun x => if Req_EM_T x 0 then 0 else 1) (nth i jac []).
Proof.
  unfold pattern. revert i; induction jac as [|row jac IH]; intros [|i]; cbn [map nth];
    auto.
Qed.

End Locality.

(** *** The perturbation step *)

Lemma step_max y : step y = Rmax 1e-6 (1e-6 * y).
Proof.
  unfold step, Rmax. destruct (Rlt_dec 1e-6 (1e-6 * y)), (Rle_dec 1e-6 (1e-6 * y)); lra.
Qed.

(** In [sim_neg], row [0] of a probe is linear in [svdot[0]]: its
    [Li_max*svdot] term is the only one that reads it. *)
Lemma sim_neg_probe_row0 a b ra rb :
  fresh_res Example.c0 Example.m0 Example.sim_neg (sv0 Example.sim_neg)
    (replace_nth (svdot0 Example.sim_neg) 0 a) = Some ra ->
  fresh_res Example.c0 Example.m0 Example.sim_neg (sv0 Example.sim_neg)
    (replace_nth (svdot0 Example.sim_neg) 0 b) = Some rb ->
  nth 0 ra 0 - nth 0 rb 0 = a - b.
Proof.
  unfold fresh_res. cbn. intros Ha Hb. injection Ha as <-. injection Hb as <-. cbn. ring.
Qed.

Section Claims.

Variable c : Constants.
Variable m : MathOps.

(** C1: in every successful call to [residuals], the reaction rate of the
    anode and of the cathode is the Butler-Volmer rate
    [i0/F (exp(aa F eta/(R T)) - exp(-ac F eta/(R T)))] with
    [eta = phi_ed - phi_el - get_Eeq(x_surf, T)] and
    [i0 = get_i0(x_surf, el.Li_0, T)], [x_surf] the fraction at the last
    radial node.  The rates are those returned in diagnostics mode, and the
    anode rate is the one in the events' current. *)
Theorem residuals_butler_volmer (t : R) (s s' : Store) (ret : option (R * R)) :
  residuals c m t s = Some (s', ret) ->
  let sim := st_sim s in let sv := st_sv s in let T := temp (bat sim) in
  exists phi_an phi_el phi_ca x_an x_ca,
    at_ sv (ptr_phi_ed (an sim)) = Some phi_an /\
    at_ sv (ptr_phi_el (el sim)) = Some phi_el /\
    at_ sv (ptr_phi_ed (ca sim)) = Some phi_ca /\
    surface_fraction sv (an sim) = Some x_an /\
    surface_fraction sv (ca sim) = Some x_ca /\
    let sdot_an := bv_spec c (an sim) phi_an phi_el x_an (Li_0 (el sim)) T in
    let sdot_ca := bv_spec c (ca sim) phi_ca phi_el x_ca (Li_0 (el sim)) T in
    (flag_post sim = true -> ret = Some (sdot_an, sdot_ca)) /\
    option_map current_A (events (st_exp s'))
      = Some (- sdot_an * A_s (an sim) * thick (an sim) * F c * area (bat sim)).
Proof.
  intro H. inv_residuals H.
  do 5 eexists.
  split; [eassumption|]. split; [eassumption|]. split; [eassumption|].
  split; [eapply take_idx_last; eassumption|].
  split; [eapply take_idx_last; eassumption|].
  cbn zeta. rewrite <- !reaction_rate_bv. split.
  - cbn. intros ->. reflexivity.
  - reflexivity.
Qed.

(** C3: in every successful call to [residuals], for the anode and for the
    cathode, the radial flux vector [Js] of the solid-phase mass balance is
    [0] at the particle center and [-sdot] at the particle surface, [sdot]
    being that electrode's reaction rate. *)
Theorem residuals_flux_boundary (t : R) (s s' : Store) (ret : option (R * R)) :
  residuals c m t s = Some (s', ret) ->
  let sim := st_sim s in let sv := st_sv s in let T := temp (bat sim) in
  forall ed, ed = an sim \/ ed = ca sim ->
  exists phi_ed phi_el xs x Js,
    at_ sv (ptr_phi_ed ed) = Some phi_ed /\
    at_ sv (ptr_phi_el (el sim)) = Some phi_el /\
    take_idx sv (r_ptr_Li_ed ed) = Some xs /\ last_ xs = Some x /\
    let sdot := bv_spec c ed phi_ed phi_el x (Li_0 (el sim)) T in
    solid_flux m ed xs T sdot = Some Js /\
    exists inner, Js = [0] ++ inner ++ [- sdot].
Proof.
  intros H sim sv T ed Hed. inv_residuals H.
  destruct Hed as [-> | ->]; do 5 eexists;
    (split; [eassumption|]); (split; [eassumption|]);
    (split; [eassumption|]); (split; [eassumption|]);
    cbn zeta; rewrite <- reaction_rate_bv;
    (split; [eassumption|]); eapply solid_flux_shape; eassumption.
Qed.

Lemma boundary_conditions_crate sim t v ev sa sc vV pW res :
  boundary_conditions c sim (mkExperiment "current" "C" v ev) t sa sc vV pW res
  = boundary_conditions c sim (mkExperiment "current" "A" (fun t => v t * cap (bat sim)) ev)
      t sa sc vV pW res.
Proof. reflexivity. Qed.

(** C4: a call in [{mode: 'current', units: 'C', value: v}] writes the same
    residual vector, the same events snapshot and returns the same value as
    the call in [{mode: 'current', units: 'A', value: t -> v(t)*bat.cap}]
    (and both raise, or neither). *)
Theorem residuals_crate_as_current (t : R) (sim : Simulation) (sv svdot res : list R)
    (v : R -> R) (ev : option Events) :
  let run ex := option_map (fun p => (st_res (fst p), events (st_exp (fst p)), snd p))
                  (residuals c m t (mkStore sim sv svdot res ex)) in
  run (mkExperiment "current" "C" v ev)
  = run (mkExperiment "current" "A" (fun t => v t * cap (bat sim)) ev).
Proof.
  cbv zeta. unfold residuals. cbn [bind st_sim st_exp st_sv st_svdot st_res].
  destruct_binds. rewrite boundary_conditions_crate.
  destruct (boundary_conditions _ _ _ _ _ _ _ _ _); reflexivity.
Qed.

(** C5: for an experiment whose [(mode, units)] is none of the four handled
    pairs, the call raises nothing more than the same call with any other
    experiment, writes the same rows as that call except the cathode
    [phi_ed] row and the electrolyte [phi_el] row, and leaves every row
    that the electrode blocks do not write (so, for a partitioning index
    map, those two rows) at the caller's buffer values. *)
Theorem residuals_unsupported_mode (t : R) (sim : Simulation) (sv svdot res : list R)
    (ex ex' : Experiment) (s' : Store) (ret' : option (R * R)) :
  supported (mode ex) (units ex) = false ->
  residuals c m t (mkStore sim sv svdot res ex') = Some (s', ret') ->
  exists s ret,
    residuals c m t (mkStore sim sv svdot res ex) = Some (s, ret) /\
    (forall k, k <> ptr_phi_ed (ca sim) -> k <> ptr_phi_el (el sim) ->
       nth k (st_res s) 0 = nth k (st_res s') 0) /\
    (forall k, ~ In k (r_ptr_Li_ed (an sim)) -> k <> ptr_phi_ed (an sim) ->
       ~ In k (r_ptr_Li_ed (ca sim)) -> nth k (st_res s) 0 = nth k res 0).
Proof.
  intros Hmode H. inv_residuals H.
  unfold residuals. cbn [bind st_sim st_sv st_svdot st_res st_exp].
  repeat match goal with
  | E : ?x = Some _ |- context [bind ?x _] => rewrite E; cbn [bind]
  end.
  rewrite boundary_conditions_unsupported by exact Hmode. cbn [bind].
  do 2 eexists. split; [reflexivity|]. cbn [st_res].
  match goal with
  | B : boundary_conditions _ _ _ _ _ _ _ _ _ = Some _ |- _ =>
      apply boundary_conditions_frame in B as [_ FB]
  end.
  match goal with
  | S1 : solid_com _ (an _) _ _ _ = Some _,
    A1 : assign_at _ _ _ = Some _,
    S2 : solid_com _ (ca _) _ _ _ = Some _ |- _ =>
      apply solid_com_frame in S1 as [_ F1];
      apply assign_at_frame in A1 as [_ F2];
      apply solid_com_frame in S2 as [_ F3]
  end.
  split.
  - intros k H1 H2. symmetry. apply FB; auto.
  - intros k H1 H2 H3. rewrite F3, F2, F1; auto.
Qed.

(** C7: a call to [residuals] leaves the simulation, [sv], [svdot] and the
    experiment's mode, units and value unchanged, keeps the length of [res],
    and sets [exp['events']] to a snapshot with [time_s = sim._t0 + t],
    [time_min = time_s/60], [time_h = time_s/3600],
    [current_C = current_A/bat.cap] and [power_W = current_A*voltage_V]. *)
Theorem residuals_frame (t : R) (s s' : Store) (ret : option (R * R)) :
  residuals c m t s = Some (s', ret) ->
  st_sim s' = st_sim s /\ st_sv s' = st_sv s /\ st_svdot s' = st_svdot s /\
  List.length (st_res s') = List.length (st_res s) /\
  mode (st_exp s') = mode (st_exp s) /\ units (st_exp s') = units (st_exp s) /\
  value (st_exp s') = value (st_exp s) /\
  exists ev, events (st_exp s') = Some ev /\
    time_s ev = t0 (st_sim s) + t /\
    time_min ev = time_s ev / 60 /\ time_h ev = time_s ev / 3600 /\
    current_C ev = current_A ev / cap (bat (st_sim s)) /\
    power_W ev = current_A ev * voltage_V ev.
Proof.
  intro H. inv_residuals H. cbn.
  repeat match goal with
  | B : boundary_conditions _ _ _ _ _ _ _ _ _ = Some _ |- _ =>
      apply boundary_conditions_frame in B as [? _]
  | S1 : solid_com _ _ _ _ _ = Some _ |- _ => apply solid_com_frame in S1 as [? _]
  | A1 : assign_at _ _ _ = Some _ |- _ => apply assign_at_frame in A1 as [? _]
  end.
  repeat split; try congruence.
  eexists. repeat split.
Qed.

Lemma boundary_conditions_post bt e a k t0 b sv0 svdot0 ex t sa sc vV pW res :
  boundary_conditions c (mkSimulation bt e a k t0 b sv0 svdot0) ex t sa sc vV pW res
  = boundary_conditions c (mkSimulation bt e a k t0 false sv0 svdot0) ex t sa sc vV pW res.
Proof. reflexivity. Qed.

(** C6: setting [sim._flags['post']] changes only the return value: the
    call raises in both settings or in neither; both write the same [res]
    and the same experiment dict (events included); the return value is
    [None] with the flag unset and the pair of Butler-Volmer rates
    [(sdot_an, sdot_ca)] with the flag set. *)
Theorem residuals_post_flag (t : R) (s : Store) :
  (residuals c m t (with_post s false) = None <-> residuals c m t (with_post s true) = None) /\
  forall s1 r1 s2 r2,
    residuals c m t (with_post s false) = Some (s1, r1) ->
    residuals c m t (with_post s true) = Some (s2, r2) ->
    st_res s1 = st_res s2 /\ st_exp s1 = st_exp s2 /\
    r1 = None /\ r2 = rates_spec c (st_sv s) (st_sim s) /\ r2 <> None.
Proof.
  assert (Hproj : option_map (fun p => (st_res (fst p), st_exp (fst p)))
                    (residuals c m t (with_post s false))
                  = option_map (fun p => (st_res (fst p), st_exp (fst p)))
                    (residuals c m t (with_post s true))).
  { unfold residuals, with_post.
    cbn [bind st_sim st_sv st_svdot st_res st_exp bat el an ca t0 flag_post].
    destruct_binds. rewrite (boundary_conditions_post _ _ _ _ _ true). destruct_all_binds. }
  split.
  - destruct (residuals c m t (with_post s false)), (residuals c m t (with_post s true));
      simpl in Hproj; split; intro; congruence.
  - intros s1 r1 s2 r2 H1 H2.
    rewrite H1, H2 in Hproj. simpl in Hproj. injection Hproj as Hr He.
    split; [exact Hr|]. split; [exact He|].
    unfold with_post in H1, H2. inv_residuals H1. inv_residuals H2.
    cbn [flag_post]. split; [reflexivity|].
    unfold rates_spec, surface_fraction. cbn [bind].
    repeat match goal with
    | E : ?x = Some _ |- context [bind ?x _] => rewrite E; cbn [bind]
    end.
    rewrite <- !reaction_rate_bv. split; [reflexivity | discriminate].
Qed.

(** C2 (amended): in voltage mode, with distinct cathode [phi_ed] and
    electrolyte [phi_el] rows, [residuals] writes [phi_ca - value(t)] into
    the cathode row and [sdot_an*A_s*thick + sdot_ca*A_s*thick] (no
    Faraday factor; times [F] it is the sum of the current-mode reaction
    charges) into the electrolyte row, and every other row as the same call
    with any other experiment does. *)
Theorem residuals_voltage_rows (t : R) (s s' : Store) (ret : option (R * R)) :
  mode (st_exp s) = "voltage"%string ->
  ptr_phi_ed (ca (st_sim s)) <> ptr_phi_el (el (st_sim s)) ->
  residuals c m t s = Some (s', ret) ->
  let sim := st_sim s in
  let pca := ptr_phi_ed (ca sim) in let pel := ptr_phi_el (el sim) in
  exists phi_ca sa sc,
    at_ (st_sv s) pca = Some phi_ca /\
    rates_spec c (st_sv s) sim = Some (sa, sc) /\
    nth pca (st_res s') 0 = phi_ca - value (st_exp s) t /\
    nth pel (st_res s') 0
      = sa * A_s (an sim) * thick (an sim) + sc * A_s (ca sim) * thick (ca sim) /\
    nth pel (st_res s') 0 * F c
      = sa * A_s (an sim) * thick (an sim) * F c + sc * A_s (ca sim) * thick (ca sim) * F c /\
    (forall ex' s'' ret',
       residuals c m t (mkStore sim (st_sv s) (st_svdot s) (st_res s) ex') = Some (s'', ret') ->
       forall k, k <> pca -> k <> pel -> nth k (st_res s') 0 = nth k (st_res s'') 0).
Proof.
  destruct s as [sim sv svdot res ex]. cbn [st_exp st_sim st_sv st_svdot st_res].
  intros Hm Hne H. inv_residuals H.
  match goal with
  | B : boundary_conditions _ _ _ _ _ _ _ _ _ = Some _ |- _ =>
      pose proof (boundary_conditions_frame _ _ _ _ _ _ _ _ _ _ B) as [_ FB];
      unfold boundary_conditions in B; rewrite Hm in B; cbn in B; inv_bind B
  end.
  match goal with
  | A1 : assign_at _ (ptr_phi_ed _) _ = Some _, A2 : assign_at _ (ptr_phi_el _) _ = Some _ |- _ =>
      pose proof (assign_at_same _ _ _ _ A1) as V1; pose proof (assign_at_same _ _ _ _ A2) as V2;
      apply assign_at_frame in A2 as [_ F2]
  end.
  do 3 eexists. split; [reflexivity|].
  split.
  { unfold rates_spec, surface_fraction. cbn [bind].
    repeat match goal with
    | E : ?x = Some _ |- context [bind ?x _] => rewrite E; cbn [bind]
    end.
    reflexivity. }
  cbn [st_res st_exp]. rewrite <- !reaction_rate_bv.
  split; [rewrite F2 by exact Hne; exact V1|].
  split; [exact V2|].
  split; [rewrite V2; ring|].
  intros ex' s'' ret' H2 k Hk1 Hk2.
  inv_residuals H2. unify_runs.
  match goal with
  | B : boundary_conditions _ _ ex' _ _ _ _ _ _ = Some _ |- _ =>
      apply boundary_conditions_frame in B as [_ FB']
  end.
  cbn [st_res]. rewrite FB' by assumption. apply FB; assumption.
Qed.

(** C8 (amended): for every column [j], [bandwidth] builds column [j] of
    its probed matrix from the residuals at [y] with [y[j]] raised by
    [max(1e-6, 1e-6*y[j])] and at [y'] with [y'[j]] raised by
    [max(1e-6, 1e-6*y'[j])], of the signed components (no absolute
    value); both steps are at least [1e-6], hence never zero. *)
Theorem bandwidth_perturbation (sim : Simulation) (l u : nat) (p : list (list R)) :
  bandwidth c m sim = Some (l, u, p) ->
  exists jac base,
    jacobian c m sim = Some jac /\
    fresh_res c m sim (sv0 sim) (svdot0 sim) = Some base /\
    forall j, (j < List.length (sv0 sim))%nat ->
      let y := nth j (sv0 sim) 0 in let yp := nth j (svdot0 sim) 0 in
      let dy := Rmax 1e-6 (1e-6 * y) in let dyp := Rmax 1e-6 (1e-6 * yp) in
      1e-6 <= dy /\ dy <> 0 /\ 1e-6 <= dyp /\ dyp <> 0 /\
      exists r1 r2,
        fresh_res c m sim (replace_nth (sv0 sim) j (y + dy)) (svdot0 sim) = Some r1 /\
        fresh_res c m sim (sv0 sim) (replace_nth (svdot0 sim) j (yp + dyp)) = Some r2 /\
        forall i, entry jac i j = (nth i base 0 - nth i r1 0) + (nth i base 0 - nth i r2 0).
Proof.
  unfold bandwidth. intro H.
  destruct (jacobian c m sim) as [jac|] eqn:EJ; cbn [bind] in H; [|discriminate H].
  destruct (jacobian_fresh c m sim jac EJ) as (base & Hb & _ & Hcol).
  exists jac, base. split; [reflexivity|]. split; [exact Hb|].
  intros j Hj. cbv zeta.
  pose proof (Rmax_l 1e-6 (1e-6 * nth j (sv0 sim) 0)).
  pose proof (Rmax_l 1e-6 (1e-6 * nth j (svdot0 sim) 0)).
  split; [lra|]. split; [lra|]. split; [lra|]. split; [lra|].
  destruct (Hcol 0%nat j Hj) as (r1 & r2 & E1 & E2 & _).
  unfold bump in E1, E2. rewrite step_max in E1, E2.
  exists r1, r2. split; [exact E1|]. split; [exact E2|].
  intro i. destruct (Hcol i j Hj) as (r1' & r2' & E1' & E2' & He).
  unfold bump in E1', E2'. rewrite step_max in E1', E2'.
  rewrite E1 in E1'. rewrite E2 in E2'. injection E1' as <-. injection E2' as <-. exact He.
Qed.

(** C9: [bandwidth] returns as [lband] the largest [i - j] over the nonzero
    entries [(i, j)] with [j < i] of the probed matrix [jac] (0 if there is
    none), as [uband] the largest [j - i] over the nonzero entries with
    [i <= j] (0 if there is none), and as pattern the matrix whose entry
    [(i, j)] is 1 when [jac]'s entry is nonzero and 0 when it is zero. *)
Theorem bandwidth_band_pattern (sim : Simulation) (l u : nat) (p : list (list R)) :
  bandwidth c m sim = Some (l, u, p) ->
  exists jac, jacobian c m sim = Some jac /\
    (forall i j, (j < i)%nat -> entry jac i j <> 0 -> (i - j <= l)%nat) /\
    (l = 0%nat \/ exists i j, (j < i)%nat /\ entry jac i j <> 0 /\ l = (i - j)%nat) /\
    (forall i j, (i <= j)%nat -> entry jac i j <> 0 -> (j - i <= u)%nat) /\
    (u = 0%nat \/ exists i j, (i <= j)%nat /\ entry jac i j <> 0 /\ u = (j - i)%nat) /\
    (forall i j, entry jac i j <> 0 -> entry p i j = 1) /\
    (forall i j, entry jac i j = 0 -> entry p i j = 0).
Proof.
  intro H. unfold bandwidth in H.
  destruct (jacobian c m sim) as [jac|] eqn:EJ; cbn [bind] in H; [|discriminate H].
  destruct (band_rows jac 0 0 0) as [l' u'] eqn:EB. injection H as <- <- <-.
  apply band_rows_spec in EB as [[_ [Hlb Hlat]] [_ [Hub Huat]]].
  cbn [Nat.add] in Hlb, Hlat, Hub, Huat.
  exists jac. split; [reflexivity|].
  split; [exact Hlb|]. split; [exact Hlat|]. split; [exact Hub|]. split; [exact Huat|].
  split; intros i j Hn; rewrite pattern_entry; destruct (Req_EM_T (entry jac i j) 0); congruence.
Qed.

(** C10: [bandwidth] takes no experiment: it probes [residuals] only at
    [t = 0], from the simulation's stored [sv0] and [svdot0], in the fixed
    fake OCV experiment [{mode: 'current', units: 'C', value: t -> 0}].
    Its bandwidths and pattern are those of an [N x N] matrix
    ([N = len(sv0)]) whose entry [(i, j)], [j < N], is
    [(base_i - r1_i) + (base_i - r2_i)], with [base], [r1], [r2] the
    residuals of fresh calls in that experiment at [(sv0, svdot0)], at [sv0]
    with component [j] perturbed, and at [svdot0] with component [j]
    perturbed; the buffer and the dict threaded between the calls of the
    source leave no trace.  So the results are a function of the
    simulation, and the boundary-condition rows probed are the current-mode
    ones whatever mode the simulation is later run in. *)
Theorem bandwidth_probes_ocv (sim : Simulation) (l u : nat) (p : list (list R)) :
  bandwidth c m sim = Some (l, u, p) ->
  exists jac base,
    jacobian c m sim = Some jac /\ band_rows jac 0 0 0 = (l, u) /\ p = pattern jac /\
    fresh_res c m sim (sv0 sim) (svdot0 sim) = Some base /\
    square (List.length (sv0 sim)) jac /\
    forall i j, (j < List.length (sv0 sim))%nat ->
      exists r1 r2,
        fresh_res c m sim (bump (sv0 sim) j) (svdot0 sim) = Some r1 /\
        fresh_res c m sim (sv0 sim) (bump (svdot0 sim) j) = Some r2 /\
        entry jac i j = (nth i base 0 - nth i r1 0) + (nth i base 0 - nth i r2 0).
Proof.
  intro H. unfold bandwidth in H.
  destruct (jacobian c m sim) as [jac|] eqn:EJ; cbn [bind] in H; [|discriminate H].
  destruct (band_rows jac 0 0 0) as [l' u'] eqn:EB. injection H as <- <- <-.
  destruct (jacobian_fresh c m sim jac EJ) as (base & Hb & Hsq & Hent).
  exists jac, base. repeat (split; [reflexivity || assumption|]). exact Hent.
Qed.

End Claims.

(** ** Witnesses *)

Lemma residuals_butler_volmer_witness :
  exists s' ret x_an,
    residuals Example.c0 Example.m0 0 (Example.store0 Example.voltage_exp) = Some (s', ret) /\
    surface_fraction (sv0 Example.sim0) (an Example.sim0) = Some x_an.
Proof.
  do 2 eexists.
  destruct (residuals_butler_volmer Example.c0 Example.m0 0
              (Example.store0 Example.voltage_exp) _ _ eq_refl)
    as (phi_an & phi_el & phi_ca & x_an & x_ca & _ & _ & _ & Hx & _).
  exists x_an. split; [reflexivity | exact Hx].
Defined.

Lemma residuals_flux_boundary_witness :
  exists s' ret (Js inner : list R) (sdot : R),
    residuals Example.c0 Example.m0 0 (Example.store0 Example.voltage_exp) = Some (s', ret) /\
    Js = [0] ++ inner ++ [- sdot].
Proof.
  do 2 eexists.
  destruct (residuals_flux_boundary Example.c0 Example.m0 0
              (Example.store0 Example.voltage_exp) _ _ eq_refl (an Example.sim0)
              (or_introl eq_refl))
    as (phi_ed & phi_el & xs & x & Js & _ & _ & _ & _ & _ & inner & Hj).
  do 3 eexists. split; [reflexivity | exact Hj].
Defined.

Lemma residuals_unsupported_mode_witness :
  exists s' ret' s ret,
    residuals Example.c0 Example.m0 0 (Example.store0 Example.voltage_exp) = Some (s', ret') /\
    residuals Example.c0 Example.m0 0
      (Example.store0 (mkExperiment "current" "mA" (fun _ => 1) None)) = Some (s, ret).
Proof.
  do 2 eexists.
  destruct (residuals_unsupported_mode Example.c0 Example.m0 0 Example.sim0
              (sv0 Example.sim0) (svdot0 Example.sim0) (repeat 0 7)
              (mkExperiment "current" "mA" (fun _ => 1) None) Example.voltage_exp _ _
              eq_refl eq_refl) as (s & ret & Hs & _).
  exists s, ret. split; [reflexivity | exact Hs].
Defined.

Lemma residuals_frame_witness :
  exists s' ret ev,
    residuals Example.c0 Example.m0 0 (Example.store0 Example.voltage_exp) = Some (s', ret) /\
    events (st_exp s') = Some ev /\ time_min ev = time_s ev / 60.
Proof.
  do 2 eexists.
  destruct (residuals_frame Example.c0 Example.m0 0 (Example.store0 Example.voltage_exp)
              _ _ eq_refl) as (_ & _ & _ & _ & _ & _ & _ & ev & Hev & _ & Hmin & _).
  exists ev. split; [reflexivity | split; assumption].
Defined.

Lemma residuals_post_flag_witness :
  exists s1 r1 s2 r2,
    residuals Example.c0 Example.m0 0
      (with_post (Example.store0 Example.voltage_exp) false) = Some (s1, r1) /\
    residuals Example.c0 Example.m0 0
      (with_post (Example.store0 Example.voltage_exp) true) = Some (s2, r2) /\
    r1 = None /\ st_res s1 = st_res s2.
Proof.
  do 4 eexists.
  destruct (proj2 (residuals_post_flag Example.c0 Example.m0 0
                     (Example.store0 Example.voltage_exp)) _ _ _ _ eq_refl eq_refl)
    as (Hr & _ & H1 & _).
  split; [reflexivity|]. split; [reflexivity|]. split; [exact H1 | exact Hr].
Defined.


(** C2 as stated fails: in voltage mode the electrolyte row is
    [sdot_an*A_s*thick + sdot_ca*A_s*thick], without Faraday's constant; at
    the example state it differs from the sum of the reaction charges
    [sdot*A_s*thick*F] of the current-mode rows. *)
Lemma residuals_voltage_rows_counterexample :
  exists s' ret sa sc,
    residuals Example.c0 Example.m0 0 (Example.store0 Example.voltage_exp) = Some (s', ret) /\
    rates_spec Example.c0 (sv0 Example.sim0) Example.sim0 = Some (sa, sc) /\
    nth (ptr_phi_el (el Example.sim0)) (st_res s') 0
    <> sa * A_s (an Example.sim0) * thick (an Example.sim0) * F Example.c0
       + sc * A_s (ca Example.sim0) * thick (ca Example.sim0) * F Example.c0.
Proof.
  do 4 eexists. split; [reflexivity|]. split; [reflexivity|].
  cbn. rewrite <- !reaction_rate_bv.
  rewrite !reaction_rate_symmetric by reflexivity.
  cbn [get_i0 get_Eeq alpha_a Example.electrode0 F R_gas Example.c0].
  replace (1 / 2 * 96485 * (0 - 0 - 0) / (8314 / 1000) / 300) with 0 by field.
  rewrite Ropp_0, Rminus_diag.
  set (z := 1 / 2 * 96485 * (4 - 0 - 0) / (8314 / 1000) / 300).
  assert (Hz : 0 < z) by (unfold z; lra).
  assert (Hexp : exp (- z) < exp z) by (apply exp_increasing; lra).
  set (D := exp z - exp (- z)).
  assert (HD : 0 < D) by (unfold D; lra).
  lra.
Qed.

(** C8 as stated fails: in [sim_neg], where [y'[0] = -5], column [0] of
    the matrix [bandwidth] probes is not the finite difference at the
    steps [max(1e-6, 1e-6*|y[0]|)] and [max(1e-6, 1e-6*|y'[0]|)]: the
    step [bandwidth] applies to [y'[0]] is [1e-6], not [5e-6]. *)
Lemma bandwidth_abs_step_counterexample :
  ~ (forall jac base,
       jacobian Example.c0 Example.m0 Example.sim_neg = Some jac ->
       fresh_res Example.c0 Example.m0 Example.sim_neg
         (sv0 Example.sim_neg) (svdot0 Example.sim_neg) = Some base ->
       forall j, (j < List.length (sv0 Example.sim_neg))%nat ->
         let y := nth j (sv0 Example.sim_neg) 0 in
         let yp := nth j (svdot0 Example.sim_neg) 0 in
         exists r1 r2,
           fresh_res Example.c0 Example.m0 Example.sim_neg
             (replace_nth (sv0 Example.sim_neg) j (y + Rmax 1e-6 (1e-6 * Rabs y)))
             (svdot0 Example.sim_neg) = Some r1 /\
           fresh_res Example.c0 Example.m0 Example.sim_neg (sv0 Example.sim_neg)
             (replace_nth (svdot0 Example.sim_neg) j (yp + Rmax 1e-6 (1e-6 * Rabs yp)))
             = Some r2 /\
           forall i, entry jac i j = (nth i base 0 - nth i r1 0) + (nth i base 0 - nth i r2 0)).
Proof.
  intro H.
  destruct (jacobian Example.c0 Example.m0 Example.sim_neg) as [jac|] eqn:EJ;
    [|vm_compute in EJ; discriminate EJ].
  destruct (jacobian_fresh _ _ _ _ EJ) as (base & Hb & _ & Hcol).
  assert (H0 : (0 < List.length (sv0 Example.sim_neg))%nat) by (cbn; lia).
  destruct (H jac base eq_refl Hb 0%nat H0) as (r1' & r2' & E1' & E2' & He').
  destruct (Hcol 0%nat 0%nat H0) as (r1 & r2 & E1 & E2 & He).
  specialize (He' 0%nat). rewrite He in He'.
  unfold bump in E1, E2. rewrite step_max in E1, E2.
  assert (Hy : nth 0 (sv0 Example.sim_neg) 0 = 1/2) by reflexivity.
  assert (Hyp : nth 0 (svdot0 Example.sim_neg) 0 = -5) by reflexivity.
  rewrite Hy in E1, E1'. rewrite Rabs_right in E1' by lra.
  rewrite E1 in E1'. injection E1' as <-.
  rewrite Hyp in E2, E2'. rewrite Rabs_left in E2' by lra.
  rewrite Rmax_left in E2 by lra. rewrite Rmax_right in E2' by lra.
  pose proof (sim_neg_probe_row0 _ _ _ _ E2 E2') as D.
  lra.
Qed.

Lemma residuals_voltage_rows_witness :
  exists s' ret phi_ca sa sc,
    residuals Example.c0 Example.m0 0 (Example.store0 Example.voltage_exp) = Some (s', ret) /\
    at_ (sv0 Example.sim0) 6 = Some phi_ca /\
    rates_spec Example.c0 (sv0 Example.sim0) Example.sim0 = Some (sa, sc).
Proof.
  do 2 eexists.
  destruct (residuals_voltage_rows Example.c0 Example.m0 0
              (Example.store0 Example.voltage_exp) _ _ eq_refl
              ltac:(cbn; lia) eq_refl)
    as (phi_ca & sa & sc & Hphi & Hrates & _).
  exists phi_ca, sa, sc. split; [reflexivity|]. split; [exact Hphi | exact Hrates].
Defined.

Lemma bandwidth_band_pattern_witness :
  exists l u p jac,
    bandwidth Example.c0 Example.m0 Example.sim0 = Some (l, u, p) /\
    jacobian Example.c0 Example.m0 Example.sim0 = Some jac.
Proof.
  destruct (jacobian Example.c0 Example.m0 Example.sim0) as [jac|] eqn:EJ.
  - destruct (band_rows jac 0 0 0) as [lb ub] eqn:EB.
    assert (HB : bandwidth Example.c0 Example.m0 Example.sim0 = Some (lb, ub, pattern jac)).
    { unfold bandwidth. rewrite EJ. cbn [bind]. rewrite EB. reflexivity. }
    destruct (bandwidth_band_pattern Example.c0 Example.m0 Example.sim0 _ _ _ HB)
      as (jac' & Hj & _).
    exists lb, ub, (pattern jac), jac'. split; [exact HB|].
    rewrite <- Hj. symmetry. exact EJ.
  - exfalso. vm_compute in EJ. discriminate EJ.
Defined.

Lemma bandwidth_probes_ocv_witness :
  exists l u p jac base,
    bandwidth Example.c0 Example.m0 Example.sim0 = Some (l, u, p) /\
    jacobian Example.c0 Example.m0 Example.sim0 = Some jac /\
    fresh_res Example.c0 Example.m0 Example.sim0
      (sv0 Example.sim0) (svdot0 Example.sim0) = Some base.
Proof.
  destruct (jacobian Example.c0 Example.m0 Example.sim0) as [jac|] eqn:EJ.
  - destruct (band_rows jac 0 0 0) as [lb ub] eqn:EB.
    assert (HB : bandwidth Example.c0 Example.m0 Example.sim0 = Some (lb, ub, pattern jac)).
    { unfold bandwidth. rewrite EJ. cbn [bind]. rewrite EB. reflexivity. }
    destruct (bandwidth_probes_ocv Example.c0 Example.m0 Example.sim0 _ _ _ HB)
      as (jac' & base & Hj & _ & _ & Hb & _).
    exists lb, ub, (pattern jac), jac', base. split; [exact HB|]. split; [|exact Hb].
    rewrite <- Hj. symmetry. exact EJ.
  - exfalso. vm_compute in EJ. discriminate EJ.
Defined.

(** ** Further properties of [residuals] and [bandwidth] *)

Section Extras.

Variable c : Constants.
Variable m : MathOps.

(** [residuals] reads the state vector only at the three potentials and
    the two particles' radial nodes, and its time derivative only at the
    radial nodes: two calls whose [sv] and [svdot] agree there hand back
    the same residual buffer, experiment dict and return value (or both
    raise). *)
Theorem residuals_local t sim sv1 sv2 svdot1 svdot2 res ex :
  (forall k, reads_sv sim k -> nth_error sv1 k = nth_error sv2 k) ->
  (forall k, reads_svdot sim k -> nth_error svdot1 k = nth_error svdot2 k) ->
  outputs (residuals c m t (mkStore sim sv1 svdot1 res ex)) =
  outputs (residuals c m t (mkStore sim sv2 svdot2 res ex)).
Proof.
  intros H1 H2.
  rewrite (residuals_sv_local c m t sim sv1 sv2 svdot1 res ex H1).
  exact (residuals_svdot_local c m t sim sv2 svdot1 svdot2 res ex H2).
Qed.

(** [residuals] depends on the time [t] only through the applied value
    [exp['value'](t)]: at two times where it is equal, the residual buffer,
    the return value and the non-time fields of the events snapshot are
    the same (or both calls raise). *)
Theorem residuals_time_through_value t1 t2 s :
  value (st_exp s) t1 = value (st_exp s) t2 ->
  untimed_outputs (residuals c m t1 s) = untimed_outputs (residuals c m t2 s).
Proof.
  destruct s as [sim sv svdot res ex]. cbn [st_exp]. intro H.
  unfold residuals. cbn [st_sim st_sv st_svdot st_res st_exp].
  repeat first
  [ match goal with
    | |- context [boundary_conditions c sim ex t1 ?a ?b ?v ?w ?r] =>
        rewrite (boundary_conditions_time c sim ex t1 t2 a b v w r H)
    end
  | match goal with
    | |- context [bind ?x _] => destruct x; cbn [bind]; try reflexivity
    end ].
Qed.

(** Column [j] of the matrix probed by [bandwidth] is zero when
    [residuals] never reads index [j] of [sv] (and so of [svdot]). *)
Theorem jacobian_unread_column_zero sim jac :
  jacobian c m sim = Some jac ->
  forall j, ~ reads_sv sim j -> forall i, entry jac i j = 0.
Proof.
  intros H j Hj i.
  destruct (jacobian_fresh c m sim jac H) as (base & Hb & Hsq & Hcol).
  destruct (Nat.lt_ge_cases j (List.length (sv0 sim))) as [Hlt|Hge];
    [|apply (entry_square_out _ _ _ _ Hsq); right; exact Hge].
  destruct (Hcol i j Hlt) as (r1 & r2 & E1 & E2 & ->).
  rewrite (fresh_res_sv_local c m sim (bump (sv0 sim) j) (sv0 sim) (svdot0 sim)) in E1
    by (intros k Hk; unfold bump; apply nth_error_replace_nth_other; intros ->; contradiction).
  rewrite (fresh_res_svdot_local c m sim (sv0 sim) (bump (svdot0 sim) j) (svdot0 sim)) in E2
    by (intros k Hk; unfold bump; apply nth_error_replace_nth_other; intros ->;
        apply Hj; unfold reads_sv, reads_svdot in *; tauto).
  rewrite Hb in E1, E2. injection E1 as <-. injection E2 as <-. ring.
Qed.

(** Row [i] of the matrix probed by [bandwidth] is zero when no branch of
    the OCV call ([current], [C]) writes row [i] of [res]. *)
Theorem jacobian_unwritten_row_zero sim jac :
  jacobian c m sim = Some jac ->
  forall i, ~ written sim "current" "C" i -> forall j, entry jac i j = 0.
Proof.
  intros H i Hi j.
  destruct (jacobian_fresh c m sim jac H) as (base & Hb & Hsq & Hcol).
  destruct (Nat.lt_ge_cases j (List.length (sv0 sim))) as [Hlt|Hge];
    [|apply (entry_square_out _ _ _ _ Hsq); right; exact Hge].
  destruct (Hcol i j Hlt) as (r1 & r2 & E1 & E2 & ->).
  destruct (fresh_res_ok_buffer c m _ _ _ _ Hb) as [_ Z0].
  destruct (fresh_res_ok_buffer c m _ _ _ _ E1) as [_ Z1].
  destruct (fresh_res_ok_buffer c m _ _ _ _ E2) as [_ Z2].
  rewrite (Z0 i Hi), (Z1 i Hi), (Z2 i Hi). ring.
Qed.

(** In current mode with units [A], with distinct cathode [phi_ed] and
    electrolyte rows, [residuals] writes
    [sdot_ca*A_s*thick*F - value(t)/area] into the cathode row and
    [sdot_an*A_s*thick*F + value(t)/area] into the electrolyte row. *)
Theorem residuals_current_A_rows (t : R) (s s' : Store) (ret : option (R * R)) :
  mode (st_exp s) = "current"%string -> units (st_exp s) = "A"%string ->
  ptr_phi_ed (ca (st_sim s)) <> ptr_phi_el (el (st_sim s)) ->
  residuals c m t s = Some (s', ret) ->
  let sim := st_sim s in
  exists sa sc,
    rates_spec c (st_sv s) sim = Some (sa, sc) /\
    nth (ptr_phi_ed (ca sim)) (st_res s') 0
      = sc * A_s (ca sim) * thick (ca sim) * F c - value (st_exp s) t / area (bat sim) /\
    nth (ptr_phi_el (el sim)) (st_res s') 0
      = sa * A_s (an sim) * thick (an sim) * F c + value (st_exp s) t / area (bat sim).
Proof.
  destruct s as [sim sv svdot res ex]. cbn [st_exp st_sim st_sv st_svdot st_res].
  intros Hm Hu Hne H. inv_residuals H.
  match goal with
  | B : boundary_conditions _ _ _ _ _ _ _ _ _ = Some _ |- _ =>
      unfold boundary_conditions in B; rewrite Hm, Hu in B; cbn in B; inv_bind B
  end.
  match goal with
  | A1 : assign_at _ (ptr_phi_ed _) _ = Some _, A2 : assign_at _ (ptr_phi_el _) _ = Some _ |- _ =>
      pose proof (assign_at_same _ _ _ _ A1) as V1; pose proof (assign_at_same _ _ _ _ A2) as V2;
      apply assign_at_frame in A2 as [_ F2]
  end.
  do 2 eexists. split.
  { unfold rates_spec, surface_fraction. push_binds. reflexivity. }
  cbn [st_res]. rewrite <- !reaction_rate_bv.
  split; [rewrite F2 by exact Hne; exact V1 | exact V2].
Qed.

(** In current mode, with units [A] or [C], the applied current cancels
    from the sum of the cathode and electrolyte rows: it is the total
    reaction charge [sdot_an*A_s*thick*F + sdot_ca*A_s*thick*F]. *)
Theorem residuals_current_charge_balance (t : R) (s s' : Store) (ret : option (R * R)) :
  mode (st_exp s) = "current"%string ->
  units (st_exp s) = "A"%string \/ units (st_exp s) = "C"%string ->
  ptr_phi_ed (ca (st_sim s)) <> ptr_phi_el (el (st_sim s)) ->
  residuals c m t s = Some (s', ret) ->
  let sim := st_sim s in
  exists sa sc,
    rates_spec c (st_sv s) sim = Some (sa, sc) /\
    nth (ptr_phi_ed (ca sim)) (st_res s') 0 + nth (ptr_phi_el (el sim)) (st_res s') 0
      = sa * A_s (an sim) * thick (an sim) * F c + sc * A_s (ca sim) * thick (ca sim) * F c.
Proof.
  destruct s as [sim sv svdot res ex]. cbn [st_exp st_sim st_sv st_svdot st_res].
  intros Hm Hu Hne H. inv_residuals H.
  match goal with
  | B : boundary_conditions _ _ _ _ _ _ _ _ _ = Some _ |- _ =>
      unfold boundary_conditions in B; rewrite Hm in B;
      destruct Hu as [Hu|Hu]; rewrite Hu in B; cbn in B; inv_bind B
  end;
  match goal with
  | A1 : assign_at _ (ptr_phi_ed _) _ = Some _, A2 : assign_at _ (ptr_phi_el _) _ = Some _ |- _ =>
      pose proof (assign_at_same _ _ _ _ A1) as V1; pose proof (assign_at_same _ _ _ _ A2) as V2;
      apply assign_at_frame in A2 as [_ F2]
  end;
  (do 2 eexists; split;
   [ unfold rates_spec, surface_fraction; push_binds; reflexivity
   | cbn [st_res]; rewrite <- !reaction_rate_bv; rewrite F2 by exact Hne; rewrite V1, V2; ring ]).
Qed.

(** In power mode, with distinct cathode [phi_ed] and electrolyte rows,
    [residuals] writes [power_W - value(t)] into the cathode row, with
    [power_W = (-sdot_an*A_s*thick*F*area) * phi_ca], and the uncharged
    balance [sdot_an*A_s*thick + sdot_ca*A_s*thick] into the electrolyte
    row. *)
Theorem residuals_power_rows (t : R) (s s' : Store) (ret : option (R * R)) :
  mode (st_exp s) = "power"%string ->
  ptr_phi_ed (ca (st_sim s)) <> ptr_phi_el (el (st_sim s)) ->
  residuals c m t s = Some (s', ret) ->
  let sim := st_sim s in
  exists phi_ca sa sc,
    at_ (st_sv s) (ptr_phi_ed (ca sim)) = Some phi_ca /\
    rates_spec c (st_sv s) sim = Some (sa, sc) /\
    nth (ptr_phi_ed (ca sim)) (st_res s') 0
      = - sa * A_s (an sim) * thick (an sim) * F c * area (bat sim) * phi_ca
        - value (st_exp s) t /\
    nth (ptr_phi_el (el sim)) (st_res s') 0
      = sa * A_s (an sim) * thick (an sim) + sc * A_s (ca sim) * thick (ca sim).
Proof.
  destruct s as [sim sv svdot res ex]. cbn [st_exp st_sim st_sv st_svdot st_res].
  intros Hm Hne H. inv_residuals H.
  match goal with
  | B : boundary_conditions _ _ _ _ _ _ _ _ _ = Some _ |- _ =>
      unfold boundary_conditions in B; rewrite Hm in B; cbn in B; inv_bind B
  end.
  match goal with
  | A1 : assign_at _ (ptr_phi_ed _) _ = Some _, A2 : assign_at _ (ptr_phi_el _) _ = Some _ |- _ =>
      pose proof (assign_at_same _ _ _ _ A1) as V1; pose proof (assign_at_same _ _ _ _ A2) as V2;
      apply assign_at_frame in A2 as [_ F2]
  end.
  do 3 eexists. split; [reflexivity|]. split.
  { unfold rates_spec, surface_fraction. push_binds. reflexivity. }
  cbn [st_res]. rewrite <- !reaction_rate_bv.
  split; [rewrite F2 by exact Hne; rewrite V1; ring | exact V2].
Qed.

(** The anode potential is the ground: unless a later block overwrites
    it, the anode [phi_ed] row holds [phi_an - 0], and the reported
    [voltage_V] is the cathode potential itself, not [phi_ca - phi_an]. *)
Theorem residuals_anode_ground (t : R) (s s' : Store) (ret : option (R * R)) :
  ~ In (ptr_phi_ed (an (st_sim s))) (r_ptr_Li_ed (ca (st_sim s))) ->
  (supported (mode (st_exp s)) (units (st_exp s)) = true ->
   ptr_phi_ed (an (st_sim s)) <> ptr_phi_ed (ca (st_sim s)) /\
   ptr_phi_ed (an (st_sim s)) <> ptr_phi_el (el (st_sim s))) ->
  residuals c m t s = Some (s', ret) ->
  let sim := st_sim s in
  exists phi_an phi_ca,
    at_ (st_sv s) (ptr_phi_ed (an sim)) = Some phi_an /\
    at_ (st_sv s) (ptr_phi_ed (ca sim)) = Some phi_ca /\
    nth (ptr_phi_ed (an sim)) (st_res s') 0 = phi_an /\
    option_map voltage_V (events (st_exp s')) = Some phi_ca.
Proof.
  destruct s as [sim sv svdot res ex]. cbn [st_exp st_sim st_sv st_svdot st_res].
  intros Hnin Hsup H. inv_residuals H.
  match goal with
  | B : boundary_conditions _ _ _ _ _ _ _ _ _ = Some _ |- _ =>
      pose proof B as B'; apply boundary_conditions_frame in B as [_ FB]
  end.
  match goal with
  | A1 : assign_at _ _ _ = Some _, S2 : solid_com _ (ca _) _ _ _ = Some _ |- _ =>
      pose proof (assign_at_same _ _ _ _ A1) as V1; apply solid_com_frame in S2 as [_ F3]
  end.
  do 2 eexists. split; [reflexivity|]. split; [reflexivity|]. split; [|reflexivity].
  cbn [st_res].
  destruct (supported (mode ex) (units ex)) eqn:Hs.
  - destruct (Hsup eq_refl) as [N1 N2]. rewrite FB by assumption. rewrite F3 by assumption.
    rewrite V1. ring.
  - rewrite boundary_conditions_unsupported in B' by exact Hs. injection B' as <-.
    rewrite F3 by assumption. rewrite V1. ring.
Qed.

(** A call of [residuals] that returns has every index it reads inside
    [sv] and [svdot] and every row it writes inside [res]: an index out
    of range anywhere makes it raise. *)
Theorem residuals_success_in_range (t : R) (s s' : Store) (ret : option (R * R)) :
  residuals c m t s = Some (s', ret) ->
  (forall k, reads_sv (st_sim s) k -> (k < List.length (st_sv s))%nat) /\
  (forall k, reads_svdot (st_sim s) k -> (k < List.length (st_svdot s))%nat) /\
  (forall k, written (st_sim s) (mode (st_exp s)) (units (st_exp s)) k ->
     (k < List.length (st_res s))%nat).
Proof.
  destruct s as [sim sv svdot res ex]. cbn [st_exp st_sim st_sv st_svdot st_res].
  intro H. inv_residuals H.
  repeat match goal with
  | E : at_ _ _ = Some _ |- _ => apply at_lt in E
  | E : take_idx _ _ = Some _ |- _ => pose proof (take_idx_in_range _ _ _ E); clear E
  end.
  match goal with
  | S1 : solid_com _ (an _) _ _ _ = Some _, A1 : assign_at _ _ _ = Some _,
    S2 : solid_com _ (ca _) _ _ _ = Some _,
    B : boundary_conditions _ _ _ _ _ _ _ _ _ = Some _ |- _ =>
      pose proof (solid_com_lt _ _ _ _ _ _ S1) as L1;
      pose proof (assign_at_lt _ _ _ _ A1) as L2;
      pose proof (solid_com_lt _ _ _ _ _ _ S2) as L3;
      pose proof (boundary_conditions_lt _ _ _ _ _ _ _ _ _ _ B) as L4;
      apply solid_com_frame in S1 as [N1 _]; apply assign_at_frame in A1 as [N2 _];
      apply solid_com_frame in S2 as [N3 _]
  end.
  split; [|split].
  - unfold reads_sv. intros k [->|[->|[->|[Hk|Hk]]]]; auto.
  - unfold reads_svdot. intros k [Hk|Hk]; [apply (L1 k Hk) | apply (L3 k Hk)].
  - unfold written. intros k [Hk|[->|[Hk|[Hs Hk]]]].
    + apply (L1 k Hk).
    + lia.
    + destruct (L3 k Hk). lia.
    + destruct (L4 Hs). destruct Hk as [-> | ->]; lia.
Qed.

(** An electrode whose particle has no radial node makes [residuals] raise
    (the surface value [xs[-1]] of an empty array). *)
Theorem residuals_empty_particle (t : R) (s : Store) :
  r_ptr_Li_ed (an (st_sim s)) = [] \/ r_ptr_Li_ed (ca (st_sim s)) = [] ->
  residuals c m t s = None.
Proof.
  destruct s as [sim sv svdot res ex]. cbn [st_sim].
  unfold residuals. cbn [st_sim st_sv st_svdot st_res st_exp].
  intros [H|H]; rewrite H; cbn [take_idx last_ rev bind]; destruct_all_binds.
Qed.

(** The values [residuals] writes do not depend on the incoming contents
    of the residual buffer: with two buffers of the same length, both
    calls raise or both return the same value and events snapshot, write
    the same values into the written rows, and keep each buffer's other
    rows. *)
Theorem residuals_buffer_independent t sim sv svdot ex a1 a2 :
  List.length a1 = List.length a2 ->
  (residuals c m t (mkStore sim sv svdot a1 ex) = None <->
   residuals c m t (mkStore sim sv svdot a2 ex) = None) /\
  forall s1 r1, residuals c m t (mkStore sim sv svdot a1 ex) = Some (s1, r1) ->
    exists s2, residuals c m t (mkStore sim sv svdot a2 ex) = Some (s2, r1) /\
      events (st_exp s2) = events (st_exp s1) /\
      (forall k, written sim (mode ex) (units ex) k -> nth k (st_res s2) 0 = nth k (st_res s1) 0) /\
      (forall k, ~ written sim (mode ex) (units ex) k -> nth k (st_res s2) 0 = nth k a2 0).
Proof.
  intro HL.
  assert (A12 : agree (fun _ => False) a1 a2) by (split; [exact HL | intros _ []]).
  assert (A21 : agree (fun _ => False) a2 a1) by (split; [symmetry; exact HL | intros _ []]).
  split.
  - split; intro HN.
    + destruct (residuals c m t (mkStore sim sv svdot a2 ex)) as [[s2 r2]|] eqn:E2;
        [|reflexivity].
      destruct (residuals_agree A21 eq_refl eq_refl eq_refl E2) as (s1 & E1 & _). congruence.
    + destruct (residuals c m t (mkStore sim sv svdot a1 ex)) as [[s1 r1]|] eqn:E1;
        [|reflexivity].
      destruct (residuals_agree A12 eq_refl eq_refl eq_refl E1) as (s2 & E2 & _). congruence.
  - intros s1 r1 H.
    destruct (residuals_agree A12 eq_refl eq_refl eq_refl H) as (s2 & E2 & [_ HA] & Hev).
    exists s2. split; [exact E2|]. split; [exact Hev|]. split.
    + intros k Hk. symmetry. apply HA. right. exact Hk.
    + intros k Hk. destruct (residuals_out_frame _ _ _ _ _ _ _ _ _ _ E2) as (_ & _ & _ & _ & HF).
      apply HF. exact Hk.
Qed.

(** [bandwidth] returns band widths below the state dimension [N]
    ([lband, uband <= N - 1]) and an [N x N] pattern of zeros and ones. *)
Theorem bandwidth_bounds sim l u p :
  bandwidth c m sim = Some (l, u, p) ->
  let N := List.length (sv0 sim) in
  (l <= N - 1)%nat /\ (u <= N - 1)%nat /\ square N p /\
  (forall i j, entry p i j = 0 \/ entry p i j = 1).
Proof.
  unfold bandwidth. intro H.
  destruct (jacobian c m sim) as [jac|] eqn:EJ; cbn [bind] in H; [|discriminate H].
  destruct (band_rows jac 0 0 0) as [l' u'] eqn:EB. injection H as <- <- <-.
  destruct (jacobian_fresh c m sim jac EJ) as (base & _ & Hsq & _).
  apply band_rows_spec in EB as [[_ [_ Hlat]] [_ [_ Huat]]].
  cbv zeta. split; [|split; [|split]].
  - destruct Hlat as [-> | (k & j & Hj & Hn & ->)]; [lia|].
    destruct (entry_square_nonzero _ _ _ _ Hsq Hn). lia.
  - destruct Huat as [-> | (k & j & Hj & Hn & ->)]; [lia|].
    destruct (entry_square_nonzero _ _ _ _ Hsq Hn). lia.
  - destruct Hsq as [HL Hrow]. split.
    + unfold pattern. rewrite length_map. exact HL.
    + intros i Hi. rewrite pattern_row, length_map. exact (Hrow i Hi).
  - intros i j. rewrite pattern_entry. destruct (Req_EM_T (entry jac i j) 0); auto.
Qed.

End Extras.

Lemma residuals_local_witness :
  (forall k, reads_sv Example.sim_pad k ->
     nth_error (sv0 Example.sim_pad) k = nth_error [1/2; 1/2; 0; 0; 1/2; 1/2; 4; 9] k) /\
  (forall k, reads_svdot Example.sim_pad k ->
     nth_error (svdot0 Example.sim_pad) k = nth_error [0; 0; 5; 5; 0; 0; 5; 5] k) /\
  outputs (residuals Example.c0 Example.m0 0
    (mkStore Example.sim_pad (sv0 Example.sim_pad) (svdot0 Example.sim_pad)
       (repeat 0 8) Example.voltage_exp)) =
  outputs (residuals Example.c0 Example.m0 0
    (mkStore Example.sim_pad [1/2; 1/2; 0; 0; 1/2; 1/2; 4; 9] [0; 0; 5; 5; 0; 0; 5; 5]
       (repeat 0 8) Example.voltage_exp)).
Proof.
  assert (H1 : forall k, reads_sv Example.sim_pad k ->
     nth_error (sv0 Example.sim_pad) k = nth_error [1/2; 1/2; 0; 0; 1/2; 1/2; 4; 9] k).
  { intros k Hk. unfold reads_sv in Hk. cbn in Hk.
    decompose [or] Hk; subst; try reflexivity; contradiction. }
  assert (H2 : forall k, reads_svdot Example.sim_pad k ->
     nth_error (svdot0 Example.sim_pad) k = nth_error [0; 0; 5; 5; 0; 0; 5; 5] k).
  { intros k Hk. unfold reads_svdot in Hk. cbn in Hk.
    decompose [or] Hk; subst; try reflexivity; contradiction. }
  split; [exact H1|]. split; [exact H2|].
  exact (residuals_local Example.c0 Example.m0 0 Example.sim_pad _ _ _ _ _ _ H1 H2).
Defined.

Lemma residuals_time_through_value_witness :
  value Example.voltage_exp 0 = value Example.voltage_exp 5 /\
  untimed_outputs (residuals Example.c0 Example.m0 0 (Example.store0 Example.voltage_exp)) =
  untimed_outputs (residuals Example.c0 Example.m0 5 (Example.store0 Example.voltage_exp)).
Proof.
  assert (H : value Example.voltage_exp 0 = value Example.voltage_exp 5) by reflexivity.
  split; [exact H|].
  exact (residuals_time_through_value Example.c0 Example.m0 0 5
           (Example.store0 Example.voltage_exp) H).
Defined.

Lemma jacobian_unread_column_zero_witness :
  exists jac, jacobian Example.c0 Example.m0 Example.sim_pad = Some jac /\
    ~ reads_sv Example.sim_pad 7 /\ forall i, entry jac i 7 = 0.
Proof.
  destruct (jacobian Example.c0 Example.m0 Example.sim_pad) as [jac|] eqn:EJ.
  - assert (Hn : ~ reads_sv Example.sim_pad 7) by (unfold reads_sv; cbn; lia).
    exists jac. split; [reflexivity|]. split; [exact Hn|].
    exact (jacobian_unread_column_zero Example.c0 Example.m0 Example.sim_pad jac EJ 7 Hn).
  - exfalso. vm_compute in EJ. discriminate EJ.
Defined.

Lemma jacobian_unwritten_row_zero_witness :
  exists jac, jacobian Example.c0 Example.m0 Example.sim_pad = Some jac /\
    ~ written Example.sim_pad "current" "C" 7 /\ forall j, entry jac 7 j = 0.
Proof.
  destruct (jacobian Example.c0 Example.m0 Example.sim_pad) as [jac|] eqn:EJ.
  - assert (Hn : ~ written Example.sim_pad "current" "C" 7)
      by (unfold written; cbn; intuition lia).
    exists jac. split; [reflexivity|]. split; [exact Hn|].
    exact (jacobian_unwritten_row_zero Example.c0 Example.m0 Example.sim_pad jac EJ 7 Hn).
  - exfalso. vm_compute in EJ. discriminate EJ.
Defined.

Lemma residuals_current_A_rows_witness :
  exists s' ret sa sc,
    residuals Example.c0 Example.m0 0 (Example.store0 Example.current_A_exp) = Some (s', ret) /\
    rates_spec Example.c0 (sv0 Example.sim0) Example.sim0 = Some (sa, sc).
Proof.
  do 2 eexists.
  destruct (residuals_current_A_rows Example.c0 Example.m0 0
              (Example.store0 Example.current_A_exp) _ _ eq_refl eq_refl
              ltac:(cbn; lia) eq_refl)
    as (sa & sc & Hrates & _).
  exists sa, sc. split; [reflexivity | exact Hrates].
Defined.

Lemma residuals_current_charge_balance_witness :
  exists s' ret sa sc,
    residuals Example.c0 Example.m0 0 (Example.store0 ocv_exp) = Some (s', ret) /\
    rates_spec Example.c0 (sv0 Example.sim0) Example.sim0 = Some (sa, sc).
Proof.
  do 2 eexists.
  destruct (residuals_current_charge_balance Example.c0 Example.m0 0
              (Example.store0 ocv_exp) _ _ eq_refl (or_intror eq_refl)
              ltac:(cbn; lia) eq_refl)
    as (sa & sc & Hrates & _).
  exists sa, sc. split; [reflexivity | exact Hrates].
Defined.

Lemma residuals_power_rows_witness :
  exists s' ret phi_ca sa sc,
    residuals Example.c0 Example.m0 0 (Example.store0 Example.power_exp) = Some (s', ret) /\
    at_ (sv0 Example.sim0) 6 = Some phi_ca /\
    rates_spec Example.c0 (sv0 Example.sim0) Example.sim0 = Some (sa, sc).
Proof.
  do 2 eexists.
  destruct (residuals_power_rows Example.c0 Example.m0 0
              (Example.store0 Example.power_exp) _ _ eq_refl
              ltac:(cbn; lia) eq_refl)
    as (phi_ca & sa & sc & Hphi & Hrates & _).
  exists phi_ca, sa, sc. split; [reflexivity|]. split; [exact Hphi | exact Hrates].
Defined.

Lemma residuals_anode_ground_witness :
  exists s' ret phi_an phi_ca,
    residuals Example.c0 Example.m0 0 (Example.store0 Example.voltage_exp) = Some (s', ret) /\
    at_ (sv0 Example.sim0) 2 = Some phi_an /\ at_ (sv0 Example.sim0) 6 = Some phi_ca.
Proof.
  do 2 eexists.
  destruct (residuals_anode_ground Example.c0 Example.m0 0
              (Example.store0 Example.voltage_exp) _ _
              ltac:(cbn; lia) ltac:(intros _; cbn; lia) eq_refl)
    as (phi_an & phi_ca & Han & Hca & _).
  exists phi_an, phi_ca. split; [reflexivity|]. split; [exact Han | exact Hca].
Defined.

Lemma residuals_success_in_range_witness :
  exists s' ret,
    residuals Example.c0 Example.m0 0 (Example.store0 Example.voltage_exp) = Some (s', ret) /\
    forall k, reads_sv Example.sim0 k -> (k < 7)%nat.
Proof.
  do 2 eexists. split; [reflexivity|].
  destruct (residuals_success_in_range Example.c0 Example.m0 0
              (Example.store0 Example.voltage_exp) _ _ eq_refl) as (H & _ & _).
  exact H.
Defined.

Lemma residuals_empty_particle_witness :
  r_ptr_Li_ed (an Example.sim_nomesh) = [] /\
  residuals Example.c0 Example.m0 0
    (mkStore Example.sim_nomesh (sv0 Example.sim_nomesh) (svdot0 Example.sim_nomesh)
       (repeat 0 7) Example.voltage_exp) = None.
Proof.
  split; [reflexivity|].
  apply (residuals_empty_particle Example.c0 Example.m0 0
           (mkStore Example.sim_nomesh (sv0 Example.sim_nomesh) (svdot0 Example.sim_nomesh)
              (repeat 0 7) Example.voltage_exp)).
  left. reflexivity.
Defined.

Lemma residuals_buffer_independent_witness :
  List.length (repeat 0 7) = List.length (repeat 1 7) /\
  exists s2 ret,
    residuals Example.c0 Example.m0 0
      (mkStore Example.sim0 (sv0 Example.sim0) (svdot0 Example.sim0) (repeat 1 7)
         Example.voltage_exp) = Some (s2, ret).
Proof.
  assert (HL : List.length (repeat 0 7) = List.length (repeat 1 7)) by reflexivity.
  split; [exact HL|].
  destruct (residuals_buffer_independent Example.c0 Example.m0 0 Example.sim0
              (sv0 Example.sim0) (svdot0 Example.sim0) Example.voltage_exp _ _ HL)
    as [_ Hrun].
  destruct (Hrun _ _ eq_refl) as (s2 & E2 & _).
  exists s2, None. exact E2.
Defined.

Lemma bandwidth_bounds_witness :
  exists l u p,
    bandwidth Example.c0 Example.m0 Example.sim0 = Some (l, u, p) /\
    (l <= 6)%nat /\ (u <= 6)%nat.
Proof.
  destruct (jacobian Example.c0 Example.m0 Example.sim0) as [jac|] eqn:EJ.
  - destruct (band_rows jac 0 0 0) as [lb ub] eqn:EB.
    assert (HB : bandwidth Example.c0 Example.m0 Example.sim0 = Some (lb, ub, pattern jac)).
    { unfold bandwidth. rewrite EJ. cbn [bind]. rewrite EB. reflexivity. }
    destruct (bandwidth_bounds Example.c0 Example.m0 Example.sim0 _ _ _ HB) as (Hl & Hu & _).
    exists lb, ub, (pattern jac). split; [exact HB|]. cbn in Hl, Hu. split; assumption.
  - exfalso. vm_compute in EJ. discriminate EJ.
Defined.

Lemma bandwidth_perturbation_witness :
  exists l u p jac base,
    bandwidth Example.c0 Example.m0 Example.sim_neg = Some (l, u, p) /\
    jacobian Example.c0 Example.m0 Example.sim_neg = Some jac /\
    fresh_res Example.c0 Example.m0 Example.sim_neg
      (sv0 Example.sim_neg) (svdot0 Example.sim_neg) = Some base.
Proof.
  destruct (jacobian Example.c0 Example.m0 Example.sim_neg) as [jac|] eqn:EJ.
  - destruct (band_rows jac 0 0 0) as [lb ub] eqn:EB.
    assert (HB : bandwidth Example.c0 Example.m0 Example.sim_neg = Some (lb, ub, pattern jac)).
    { unfold bandwidth. rewrite EJ. cbn [bind]. rewrite EB. reflexivity. }
    destruct (bandwidth_perturbation Example.c0 Example.m0 Example.sim_neg _ _ _ HB)
      as (jac' & base & Hj & Hb & _).
    exists lb, ub, (pattern jac), jac', base. split; [exact HB|]. split; [|exact Hb].
    rewrite <- Hj. symmetry. exact EJ.
  - exfalso. vm_compute in EJ. discriminate EJ.
Defined.
